(** * TimerService: a model of src/timer_service/timer_service.h

    The service keeps a [std::multimap<TimePoint, TimerData>] ordered by
    expiry, a running flag, an id counter, and one worker thread.  Every
    access to the multimap happens under [mutex_], so the model interleaves
    the threads at the granularity of the critical sections: an operation of
    a caller ([schedule], [cancel], the destructor's [running_ = false]) or
    one section of the worker loop is one atomic step on [State].  A callback
    runs outside the lock, so the calls it makes on the service itself are
    steps interleaved while the worker stands at [Calling].

    The file follows the revision of the service that has [repeat],
    [period] and [schedule_until] (lines 1-172 of the source file).

    Conventions of the model:
    - [TimerId] is [uint64_t]: a [Z] with the wrap-around of [next_id_++]
      written out;
    - time points and durations are [Z]; in the source they are counts of
      a signed 64-bit integer, whose overflow is undefined behaviour, so a
      sum of the model is the sum of the source only within [clock_range];
    - a [std::function<void()>] is a [Closure] naming the callback and the
      copy of its argument; running it appends a [Fired] record to the
      history [fired] of the state;
    - in [worker_] the iterator [it] is read after [timers_.erase(it)]
      and [lock.unlock()] (line 155, [it->first]).  [worker_] and [run]
      describe the executions in which the freed node still holds the key
      it had when line 155 reads it.  [Dangling.schedule] and
      [Dangling.run] add the executions in which a [schedule] of another
      thread runs between the unlock and line 155 and its new node takes
      the place of the freed one: the worker then reads the key of that new
      entry. *)

From Stdlib Require Import ZArith List Bool Lia Sorted Permutation.
Import ListNotations.
Local Open Scope Z_scope.

(** ** Data *)

Definition TimerId := Z.
Definition TimePoint := Z.
Definition milliseconds := Z.

Definition uint64_modulus : Z := 2 ^ 64.

(** [steady_clock] ticks in nanoseconds; adding a [milliseconds] value to a
    time point converts it to ticks first. *)
Definition ticks_per_ms : Z := 1000000.
Definition to_ticks (d : milliseconds) : Z := d * ticks_per_ms.

Record Closure := mkClosure { fn : nat; arg : Z }.

Record TimerData := mkTimerData {
  id : TimerId;
  callback : Closure;
  repeat : Z;
  period : milliseconds
}.

Definition Store := list (TimePoint * TimerData).

(** ** The multimap operations used by the service *)

Module Multimap.

(** [emplace]: the new element goes to the upper bound of the range of
    equal keys. *)
Fixpoint emplace (k : TimePoint) (v : TimerData) (l : Store) : Store :=
  match l with
  | [] => [(k, v)]
  | (k', v') :: r =>
      if k <? k' then (k, v) :: l else (k', v') :: emplace k v r
  end.

(** The scan of [cancel]: erase the first element whose id matches. *)
Fixpoint erase_id (i : TimerId) (l : Store) : option Store :=
  match l with
  | [] => None
  | (k, d) :: r =>
      if id d =? i then Some r
      else match erase_id i r with
           | Some r' => Some ((k, d) :: r')
           | None => None
           end
  end.

Definition ids (l : Store) : list TimerId := map (fun e => id (snd e)) l.

Definition sorted (l : Store) : Prop :=
  StronglySorted (fun a b => fst a <= fst b) l.

End Multimap.
Import Multimap.

(** ** The service *)

(** Where the worker thread stands, with the locals it holds there. *)
Inductive Worker :=
| AtLoopHead
| Erased (it_first : TimePoint) (data : TimerData)
| Calling (it_first : TimePoint) (data : TimerData)
| Exited.

Record Fired := mkFired {
  f_id : TimerId;
  f_due : TimePoint;
  f_call : Closure
}.

Record State := mkState {
  timers : Store;
  running : bool;
  next_id : TimerId;
  worker : Worker;
  fired : list Fired
}.

Definition set_timers (l : Store) (s : State) : State :=
  mkState l (running s) (next_id s) (worker s) (fired s).
Definition set_worker (w : Worker) (s : State) : State :=
  mkState (timers s) (running s) (next_id s) w (fired s).

(** [TimerService::TimerService] *)
Definition init : State := mkState [] true 1 AtLoopHead [].

(** [TimerService::schedule]; [now] is the reading of the clock. *)
Definition schedule (now : TimePoint) (delay : milliseconds) (cb : Closure)
    (rep : Z) (s : State) : State * TimerId :=
  let expiry := now + to_ticks delay in
  let i := next_id s in
  (mkState (emplace expiry (mkTimerData i cb rep delay) (timers s))
           (running s) ((i + 1) mod uint64_modulus) (worker s) (fired s),
   i).

(** [TimerService::cancel] *)
Definition cancel (i : TimerId) (s : State) : State * bool :=
  match erase_id i (timers s) with
  | Some l => (set_timers l s, true)
  | None => (s, false)
  end.

(** [TimerService::schedule_until] *)
Definition schedule_until (expiry : TimePoint) (data : TimerData) (s : State)
    : State * TimerId :=
  (set_timers (emplace expiry data (timers s)) s, id data).

(** The critical section of [TimerService::~TimerService]. *)
Definition shutdown (s : State) : State :=
  mkState (timers s) false (next_id s) (worker s) (fired s).

Definition decrement (d : TimerData) : TimerData :=
  mkTimerData (id d) (callback d) (repeat d - 1) (period d).

(** One section of [TimerService::worker_]: from the loop head to the
    release of the lock, then the restart of the timer, then the callback. *)
Definition worker_ (now : TimePoint) (s : State) : State :=
  match worker s with
  | AtLoopHead =>
      if negb (running s) then set_worker Exited s
      else
        match timers s with
        | [] => s
        | (k, data) :: rest =>
            if k <=? now
            then mkState rest (running s) (next_id s) (Erased k data) (fired s)
            else s
        end
  | Erased k data =>
      if negb (repeat data =? 0) then
        let data' := if 0 <? repeat data then decrement data else data in
        set_worker (Calling k data')
          (fst (schedule_until (k + to_ticks (period data')) data' s))
      else set_worker (Calling k data) s
  | Calling k data =>
      mkState (timers s) (running s) (next_id s) AtLoopHead
              (fired s ++ [mkFired (id data) k (callback data)])
  | Exited => s
  end.

(** ** Interleavings *)

Inductive Op :=
| OSchedule (now : TimePoint) (delay : milliseconds) (cb : Closure) (rep : Z)
| OCancel (i : TimerId)
| OShutdown
| OWorker (now : TimePoint).

Inductive Ret :=
| RId (i : TimerId)
| RBool (b : bool)
| RUnit.

Definition step (o : Op) (s : State) : State * Ret :=
  match o with
  | OSchedule now delay cb rep =>
      let (s', i) := schedule now delay cb rep s in (s', RId i)
  | OCancel i => let (s', b) := cancel i s in (s', RBool b)
  | OShutdown => (shutdown s, RUnit)
  | OWorker now => (worker_ now s, RUnit)
  end.

Fixpoint run (ops : list Op) (s : State) : State :=
  match ops with
  | [] => s
  | o :: r => run r (fst (step o s))
  end.

(** What the calls of [ops] return, in order. *)
Fixpoint returns (ops : list Op) (s : State) : list Ret :=
  match ops with
  | [] => []
  | o :: r => snd (step o s) :: returns r (fst (step o s))
  end.

Definition is_schedule (o : Op) : bool :=
  match o with OSchedule _ _ _ _ => true | _ => false end.

Definition schedule_calls (ops : list Op) : Z :=
  Z.of_nat (length (filter is_schedule ops)).

Fixpoint returned_ids (rs : list Ret) : list TimerId :=
  match rs with
  | [] => []
  | RId i :: r => i :: returned_ids r
  | _ :: r => returned_ids r
  end.

(** The ids whose callback has run, oldest first. *)
Definition fired_ids (s : State) : list TimerId := map f_id (fired s).

(** The entry the worker has erased and not yet handed to [schedule_until]. *)
Definition held (w : Worker) : list TimerId :=
  match w with Erased _ d => [id d] | _ => [] end.

(** The entry whose firing is under way. *)
Definition in_hand (w : Worker) : list TimerId :=
  match w with Erased _ d | Calling _ d => [id d] | _ => [] end.

(** ** Invariant of the reachable states

    Ids are handed out below [next_id]; the multimap is ordered; an id is
    at most once in the multimap, and not there while the worker holds its
    entry between the erase and the restart. *)
Record WF (s : State) : Prop := mkWF {
  wf_next : 1 <= next_id s < uint64_modulus;
  wf_sorted : sorted (timers s);
  wf_nodup : NoDup (held (worker s) ++ ids (timers s));
  wf_store : Forall (fun i => 1 <= i < next_id s) (ids (timers s));
  wf_hand : Forall (fun i => 1 <= i < next_id s) (in_hand (worker s));
  wf_fired : Forall (fun i => 1 <= i < next_id s) (fired_ids s)
}.

(** The calls of [ops] do not exhaust the 64-bit id counter. *)
Definition fits (s : State) (ops : list Op) : Prop :=
  next_id s + schedule_calls ops < uint64_modulus.

(** No entry with id [i] is pending, none can come back: the id has been
    handed out already, and if the worker holds its entry, that entry is a
    single shot one. *)
Definition retired (i : TimerId) (s : State) : Prop :=
  ~ In i (ids (timers s)) /\
  i < next_id s /\
  (forall k d, worker s = Erased k d -> id d = i -> repeat d = 0).

(** ** What has been observed of a run *)

(** [iota a n] is [a; a+1; ...; a+n-1]. *)
Fixpoint iota (a : Z) (n : nat) : list Z :=
  match n with
  | O => []
  | S m => a :: iota (a + 1) m
  end.

(** The callback the worker is committed to run: its entry is erased and
    the call on line 159 has not been made yet. *)
Definition pending_call (w : Worker) : list Fired :=
  match w with
  | Erased k d | Calling k d => [mkFired (id d) k (callback d)]
  | _ => []
  end.

(** The deadlines of the callbacks run so far, oldest first. *)
Definition dues (s : State) : list TimePoint := map f_due (fired s).

(** The deadlines under which the callbacks of timer [i] were run, oldest
    first. *)
Definition due_times (i : TimerId) (s : State) : list TimePoint :=
  map f_due (filter (fun e => f_id e =? i) (fired s)).

(** How often the callback of timer [i] has run. *)
Definition fire_count (i : TimerId) (s : State) : Z :=
  Z.of_nat (length (due_times i s)).

(** ** Invariants of one timer *)

(** 1 while the worker stands before the call of timer [i]'s callback. *)
Definition calling (i : TimerId) (w : Worker) : Z :=
  match w with
  | Calling _ d => if id d =? i then 1 else 0
  | _ => 0
  end.

(** Timer [i], scheduled at clock reading [t0] with [delay], keeps its
    cadence: its firings so far were due at [t0 + delay], [t0 + 2 delay],
    ...; the entry the worker holds is due one delay after the last of
    them, and the entry in the multimap one delay after that. *)
Definition cadence (i : TimerId) (t0 : TimePoint) (delay : milliseconds)
    (s : State) : Prop :=
  let n := length (due_times i s) in
  due_times i s =
    map (fun j => t0 + to_ticks ((Z.of_nat j + 1) * delay)) (seq 0 n) /\
  (forall k d, In (k, d) (timers s) -> id d = i ->
     period d = delay /\
     k = t0 + to_ticks ((Z.of_nat n + calling i (worker s) + 1) * delay)) /\
  (forall k d, worker s = Erased k d \/ worker s = Calling k d -> id d = i ->
     period d = delay /\ k = t0 + to_ticks ((Z.of_nat n + 1) * delay)).

(** The firings a timer with a count still has before it: an entry with
    [repeat] r stands for r + 1 of them, the entry the worker has erased
    likewise, and a callback about to be called for one. *)
Fixpoint stored_firings (i : TimerId) (l : Store) : Z :=
  match l with
  | [] => 0
  | (_, d) :: r => (if id d =? i then repeat d + 1 else 0) + stored_firings i r
  end.

(** The same for what the worker holds. *)
Definition held_firings (i : TimerId) (w : Worker) : Z :=
  match w with
  | Erased _ d => if id d =? i then repeat d + 1 else 0
  | Calling _ d => if id d =? i then 1 else 0
  | _ => 0
  end.

(** The firings timer [i] still has before it. *)
Definition remaining (i : TimerId) (s : State) : Z :=
  stored_firings i (timers s) + held_firings i (worker s).

(** The entries of timer [i] carry a count, not the endless mark. *)
Definition counted (i : TimerId) (s : State) : Prop :=
  (forall k d, In (k, d) (timers s) -> id d = i -> 0 <= repeat d) /\
  (forall k d, worker s = Erased k d -> id d = i -> 0 <= repeat d).

(** ** Invariants of the order of the firings *)

(** A [schedule] call whose delay is not negative when the timer is to be
    restarted. *)
Definition sound_schedule (o : Op) : Prop :=
  match o with
  | OSchedule _ delay _ rep => rep = 0 \/ 0 <= delay
  | _ => False
  end.

(** The entry, if it is to be restarted, has a period that is not negative. *)
Definition restartable (d : TimerData) : Prop := repeat d <> 0 -> 0 <= period d.

(** The callbacks were run in the order of their deadlines, and nothing
    pending is due before one of them. *)
Definition in_order (s : State) : Prop :=
  sorted (timers s) /\
  (forall e, In e (timers s) -> restartable (snd e)) /\
  StronglySorted Z.le (dues s) /\
  (forall y e, In y (dues s) -> In e (timers s) -> y <= fst e) /\
  match worker s with
  | Erased k d =>
      restartable d /\ (forall y, In y (dues s) -> y <= k) /\
      (forall e, In e (timers s) -> k <= fst e)
  | Calling k d =>
      (forall y, In y (dues s) -> y <= k) /\
      (forall e, In e (timers s) -> k <= fst e)
  | _ => True
  end.

(** The readings of the clock along an interleaving do not go back from
    [c], and no delay is negative. *)
Fixpoint timely (c : TimePoint) (ops : list Op) : Prop :=
  match ops with
  | [] => True
  | OSchedule now delay _ _ :: r => c <= now /\ 0 <= delay /\ timely now r
  | OWorker now :: r => c <= now /\ timely now r
  | _ :: r => timely c r
  end.

(** Nothing the worker has taken up is due after the clock reading [c]. *)
Definition taken_by (c : TimePoint) (s : State) : Prop :=
  (forall y, In y (dues s) -> y <= c) /\
  match worker s with
  | Erased k _ | Calling k _ => k <= c
  | _ => True
  end.

(** Going through the multimap from its first entry, an entry of timer [a]
    is met, and none of timer [b] before it. *)
Fixpoint first_of (a b : TimerId) (l : Store) : Prop :=
  match l with
  | [] => False
  | (_, d) :: r => id d = a \/ (id d <> b /\ first_of a b r)
  end.

(** Going through the firings from the oldest, [b] is not met before [a]. *)
Fixpoint precedes (a b : TimerId) (l : list TimerId) : Prop :=
  match l with
  | [] => True
  | x :: r => x = a \/ (x <> b /\ precedes a b r)
  end.

(** Timer [a] has fired, or is being fired, or waits in the multimap under
    the deadline [dl]. *)
Definition ahead (a : TimerId) (dl : TimePoint) (s : State) : Prop :=
  In a (fired_ids s) \/ In a (in_hand (worker s)) \/
  exists d, In (dl, d) (timers s) /\ id d = a.

(** Timer [b] has not fired before timer [a], and cannot: [a] has fired, or
    is being fired, or is met first in the multimap. *)
Definition served_first (a b : TimerId) (s : State) : Prop :=
  precedes a b (fired_ids s) /\
  (In a (fired_ids s) \/ In a (in_hand (worker s)) \/
   (first_of a b (timers s) /\ ~ In b (in_hand (worker s)))).

(** ** Sentences of the specification put to the test *)

(** A [schedule] made once the running flag is cleared leaves the multimap
    alone. *)
Definition schedule_rejected_when_stopped : Prop :=
  forall pre now delay cb rep,
    fits init pre -> running (run pre init) = false ->
    timers (fst (schedule now delay cb rep (run pre init))) =
    timers (run pre init).

(** A [cancel] made once the running flag is cleared answers false. *)
Definition cancel_false_when_stopped : Prop :=
  forall pre i,
    fits init pre -> running (run pre init) = false ->
    snd (cancel i (run pre init)) = false.

(** The id of the callback being run is not in the multimap. *)
Definition never_stored_while_called : Prop :=
  forall pre k d,
    fits init pre -> worker (run pre init) = Calling k d ->
    ~ In (id d) (ids (timers (run pre init))).

(** ** Sample interleavings *)

(** A sample interleaving. *)
Definition sample_ops : list Op :=
  [OSchedule 0 100 (mkClosure 0 42) 0; OWorker 5;
   OSchedule 7 50 (mkClosure 1 7) 2; OCancel 1;
   OSchedule 9 10 (mkClosure 2 0) (-1)].

(** Shutdown begins while a callback is running. *)
Definition stop_during_call : list Op :=
  [OSchedule 0 0 (mkClosure 0 42) 0; OWorker 0; OWorker 0; OShutdown].

(** The same, with a second timer still pending. *)
Definition stop_during_call_one_pending : list Op :=
  [OSchedule 0 0 (mkClosure 0 42) 0; OSchedule 0 100 (mkClosure 1 7) 0;
   OWorker 0; OWorker 0; OShutdown].

(** A timer with one repetition, taken up to the call of its first firing. *)
Definition periodic_first_call : list Op :=
  [OSchedule 0 100 (mkClosure 0 42) 1; OWorker 100000000; OWorker 100000000].

(** A timer with two repetitions and the worker turns that fire it. *)
Definition two_repetitions : list Op :=
  OSchedule 0 100 (mkClosure 0 42) 2 :: List.repeat (OWorker 300000000) 9.

(** Three timers, the last two with the same deadline, and worker turns. *)
Definition three_timers : list Op :=
  [OSchedule 0 300 (mkClosure 0 1) 0; OSchedule 0 100 (mkClosure 1 2) 1;
   OSchedule 50000000 50 (mkClosure 2 3) 0] ++
  List.repeat (OWorker 400000000) 12.

(** ** Further invariants of one timer *)

(** Timer [i] is endless with mark [rep]: its entries carry [rep], and one
    of them is in the multimap or held by the worker for the restart. *)
Definition endless (i : TimerId) (rep : Z) (s : State) : Prop :=
  (forall k d, In (k, d) (timers s) -> id d = i -> repeat d = rep) /\
  (forall k d, worker s = Erased k d -> id d = i -> repeat d = rep) /\
  (In i (ids (timers s)) \/ In i (held (worker s))).

(** Timer [i] has been taken out of the multimap for good, and its callback
    runs at most [c] times in all. *)
Definition stopped (i : TimerId) (c : Z) (s : State) : Prop :=
  ~ In i (ids (timers s)) /\
  i < next_id s /\
  ~ In i (held (worker s)) /\
  fire_count i s + calling i (worker s) <= c.

(** The record of the firing of an entry. *)
Definition to_fired (e : TimePoint * TimerData) : Fired :=
  mkFired (id (snd e)) (fst e) (callback (snd e)).

(** A [schedule] call that leaves [repeat] at its default. *)
Definition single_shot_call (o : Op) : Prop :=
  match o with
  | OSchedule _ _ _ rep => rep = 0
  | _ => False
  end.

(** The entries the [schedule] calls of [ops] build, the first of them
    getting the id [i]. *)
Fixpoint entries_from (i : TimerId) (ops : list Op) : Store :=
  match ops with
  | [] => []
  | OSchedule now delay cb rep :: r =>
      (now + to_ticks delay, mkTimerData i cb rep delay) ::
      entries_from (i + 1) r
  | _ :: r => entries_from i r
  end.

(** The multimap is ordered by deadline, and among equal deadlines by id. *)
Definition by_deadline_then_id (l : Store) : Prop :=
  StronglySorted
    (fun x y => fst x < fst y \/ (fst x = fst y /\ id (snd x) < id (snd y))) l.

(** The entry [(k, d)] is the one the worker turns on: it is the first of
    the multimap, before [rest], or the worker holds it for the restart. *)
Definition monopolised (k : TimePoint) (d : TimerData) (rest : Store)
    (s : State) : Prop :=
  ((worker s = AtLoopHead \/ worker s = Exited \/ worker s = Calling k d) /\
   timers s = (k, d) :: rest) \/
  (worker s = Erased k d /\ timers s = rest).

(** ** The earlier revision of the service

    The revision without [repeat]: the header with the three-argument
    [schedule] and a [TimerData] of id and callback, and the worker of
    lines 202-233 of the source file, which erases the due entry and calls
    its callback, with no restart. *)

Module V1.

Record TimerData := mkTimerData {
  id : TimerId;
  callback : Closure
}.

Definition Store := list (TimePoint * TimerData).

Fixpoint emplace (k : TimePoint) (v : TimerData) (l : Store) : Store :=
  match l with
  | [] => [(k, v)]
  | (k', v') :: r =>
      if k <? k' then (k, v) :: l else (k', v') :: emplace k v r
  end.

Fixpoint erase_id (i : TimerId) (l : Store) : option Store :=
  match l with
  | [] => None
  | (k, d) :: r =>
      if id d =? i then Some r
      else match erase_id i r with
           | Some r' => Some ((k, d) :: r')
           | None => None
           end
  end.

(** The worker holds the callback it has moved out of the erased entry. *)
Inductive Worker :=
| AtLoopHead
| Calling (callback : Closure)
| Exited.

Record State := mkState {
  timers : Store;
  running : bool;
  next_id : TimerId;
  worker : Worker;
  fired : list Closure
}.

Definition init : State := mkState [] true 1 AtLoopHead [].

Definition schedule (now : TimePoint) (delay : milliseconds) (cb : Closure)
    (s : State) : State * TimerId :=
  let expiry := now + to_ticks delay in
  let i := next_id s in
  (mkState (emplace expiry (mkTimerData i cb) (timers s))
           (running s) ((i + 1) mod uint64_modulus) (worker s) (fired s),
   i).

Definition cancel (i : TimerId) (s : State) : State * bool :=
  match erase_id i (timers s) with
  | Some l => (mkState l (running s) (next_id s) (worker s) (fired s), true)
  | None => (s, false)
  end.

Definition shutdown (s : State) : State :=
  mkState (timers s) false (next_id s) (worker s) (fired s).

Definition worker_ (now : TimePoint) (s : State) : State :=
  match worker s with
  | AtLoopHead =>
      if negb (running s)
      then mkState (timers s) (running s) (next_id s) Exited (fired s)
      else
        match timers s with
        | [] => s
        | (k, data) :: rest =>
            if k <=? now
            then mkState rest (running s) (next_id s)
                         (Calling (callback data)) (fired s)
            else s
        end
  | Calling cb =>
      mkState (timers s) (running s) (next_id s) AtLoopHead (fired s ++ [cb])
  | Exited => s
  end.

Inductive Op :=
| OSchedule (now : TimePoint) (delay : milliseconds) (cb : Closure)
| OCancel (i : TimerId)
| OShutdown
| OWorker (now : TimePoint).

Definition step (o : Op) (s : State) : State * Ret :=
  match o with
  | OSchedule now delay cb =>
      let (s', i) := schedule now delay cb s in (s', RId i)
  | OCancel i => let (s', b) := cancel i s in (s', RBool b)
  | OShutdown => (shutdown s, RUnit)
  | OWorker now => (worker_ now s, RUnit)
  end.

Fixpoint run (ops : list Op) (s : State) : State :=
  match ops with
  | [] => s
  | o :: r => run r (fst (step o s))
  end.

Fixpoint returns (ops : list Op) (s : State) : list Ret :=
  match ops with
  | [] => []
  | o :: r => snd (step o s) :: returns r (fst (step o s))
  end.

End V1.

(** ** The two revisions compared *)

(** What the earlier revision keeps of an entry, of the worker's locals and
    of the state. *)
Definition old_entry (e : TimePoint * TimerData) : TimePoint * V1.TimerData :=
  (fst e, V1.mkTimerData (id (snd e)) (callback (snd e))).

Definition old_worker (w : Worker) : V1.Worker :=
  match w with
  | AtLoopHead => V1.AtLoopHead
  | Erased _ d | Calling _ d => V1.Calling (callback d)
  | Exited => V1.Exited
  end.

Definition old_state (s : State) : V1.State :=
  V1.mkState (map old_entry (timers s)) (running s) (next_id s)
             (old_worker (worker s)) (map f_call (fired s)).

(** The calls of the earlier revision that match [ops] run from [s]: the
    worker turn between erase and call has none, the earlier worker going
    from the erase straight to the call. *)
Fixpoint old_ops (ops : list Op) (s : State) : list V1.Op :=
  match ops with
  | [] => []
  | o :: r =>
      match o with
      | OSchedule now delay cb _ => [V1.OSchedule now delay cb]
      | OCancel i => [V1.OCancel i]
      | OShutdown => [V1.OShutdown]
      | OWorker now =>
          match worker s with
          | Erased _ _ => []
          | _ => [V1.OWorker now]
          end
      end ++ old_ops r (fst (step o s))
  end.

(** A call that leaves [repeat] at 0, if it is a [schedule]. *)
Definition default_repeat (o : Op) : Prop :=
  match o with
  | OSchedule _ _ _ rep => rep = 0
  | _ => True
  end.

(** No entry is to be restarted. *)
Definition plain (s : State) : Prop :=
  Forall (fun e => repeat (snd e) = 0) (timers s) /\
  (forall k d, worker s = Erased k d -> repeat d = 0).

(** The ids and booleans among the values returned. *)
Fixpoint answers (rs : list Ret) : list Ret :=
  match rs with
  | [] => []
  | RUnit :: r => answers r
  | x :: r => x :: answers r
  end.

(** How many of the values returned are [true]. *)
Fixpoint count_true (rs : list Ret) : nat :=
  match rs with
  | [] => 0%nat
  | RBool true :: r => S (count_true r)
  | _ :: r => count_true r
  end.

(** ** The read of [it->first] after the erase

    Line 155 reads [it->first] after [timers_.erase(it)] (line 146) and
    after the lock is released (line 149).  The node is freed by then: a
    [schedule] that gets the lock before [schedule_until] may build its
    entry in the freed memory, and the read then yields the key of that
    entry.  [Erased k d] holds what [it->first] reads.  [worker_] above is
    the worker in the runs where the freed node keeps its key, the first
    field of [Erased] never being written; [Dangling.schedule] is
    [schedule] with the case added in which its node takes the place of
    the erased one ([reuse]). *)

Module Dangling.

Definition schedule (reuse : bool) (now : TimePoint) (delay : milliseconds)
    (cb : Closure) (rep : Z) (s : State) : State * TimerId :=
  let expiry := now + to_ticks delay in
  let i := next_id s in
  (mkState (emplace expiry (mkTimerData i cb rep delay) (timers s))
           (running s) ((i + 1) mod uint64_modulus)
           (match worker s with
            | Erased k d => if reuse then Erased expiry d else Erased k d
            | w => w
            end)
           (fired s),
   i).

Inductive Op :=
| OSchedule (reuse : bool) (now : TimePoint) (delay : milliseconds)
    (cb : Closure) (rep : Z)
| OCancel (i : TimerId)
| OShutdown
| OWorker (now : TimePoint).

Definition step (o : Op) (s : State) : State * Ret :=
  match o with
  | OSchedule reuse now delay cb rep =>
      let (s', i) := schedule reuse now delay cb rep s in (s', RId i)
  | OCancel i => let (s', b) := cancel i s in (s', RBool b)
  | OShutdown => (shutdown s, RUnit)
  | OWorker now => (worker_ now s, RUnit)
  end.

Fixpoint run (ops : list Op) (s : State) : State :=
  match ops with
  | [] => s
  | o :: r => run r (fst (step o s))
  end.

End Dangling.

(** The call [o] with no node reused. *)
Definition intact (o : Op) : Dangling.Op :=
  match o with
  | OSchedule now delay cb rep => Dangling.OSchedule false now delay cb rep
  | OCancel i => Dangling.OCancel i
  | OShutdown => Dangling.OShutdown
  | OWorker now => Dangling.OWorker now
  end.

(** The range of the clock: a count of nanoseconds in 64 bits. *)
Definition clock_range (t : TimePoint) : Prop := - 2 ^ 63 <= t < 2 ^ 63.

(** A timer with two repetitions is due; the worker erases its entry; a
    [schedule] for 500 ms gets the lock and its node takes the place of the
    erased one; the worker restarts the timer and calls its callback. *)
Definition reused_node_run : list Dangling.Op :=
  [Dangling.OSchedule false 0 100 (mkClosure 0 42) 2;
   Dangling.OWorker 100000000;
   Dangling.OSchedule true 0 500 (mkClosure 1 7) 0;
   Dangling.OWorker 100000000;
   Dangling.OWorker 100000000].

(** ** Accounting for the callbacks of the earlier revision *)

(** The callbacks handed to [schedule], in the order of the calls. *)
Fixpoint scheduled (ops : list V1.Op) : list Closure :=
  match ops with
  | [] => []
  | V1.OSchedule _ _ cb :: r => cb :: scheduled r
  | _ :: r => scheduled r
  end.

(** The callback of the entry the scan of [cancel] stops at. *)
Fixpoint found (i : TimerId) (l : V1.Store) : list Closure :=
  match l with
  | [] => []
  | (_, d) :: r => if V1.id d =? i then [V1.callback d] else found i r
  end.

(** The callbacks of the entries the [cancel] calls of [ops] erase. *)
Fixpoint cancelled (ops : list V1.Op) (s : V1.State) : list Closure :=
  match ops with
  | [] => []
  | o :: r =>
      match o with
      | V1.OCancel i => found i (V1.timers s)
      | _ => []
      end ++ cancelled r (fst (V1.step o s))
  end.

(** The callback the worker has moved out and not yet called. *)
Definition moved_out (w : V1.Worker) : list Closure :=
  match w with V1.Calling cb => [cb] | _ => [] end.

(** The callbacks of the entries of the multimap. *)
Definition stored (l : V1.Store) : list Closure :=
  map (fun e => V1.callback (snd e)) l.

(** Where the callbacks of the earlier revision are while the service
    still has them: run, moved out by the worker, or in the multimap. *)
Definition accounted (s : V1.State) : list Closure :=
  V1.fired s ++ moved_out (V1.worker s) ++ stored (V1.timers s).

(** ** Facts about the multimap *)

Section MultimapFacts.

Lemma emplace_perm k v l : Permutation (emplace k v l) ((k, v) :: l).
Proof.
  induction l as [|[k' v'] r IH]; simpl.
  - apply Permutation_refl.
  - destruct (k <? k').
    + apply Permutation_refl.
    + eapply Permutation_trans; [apply perm_skip, IH | apply perm_swap].
Qed.

Lemma emplace_in k v l e : In e (emplace k v l) <-> e = (k, v) \/ In e l.
Proof.
  split; intro H.
  - apply (Permutation_in _ (emplace_perm k v l)) in H.
    destruct H as [H|H]; [left; congruence | right; exact H].
  - apply (Permutation_in _ (Permutation_sym (emplace_perm k v l))).
    destruct H as [H|H]; [left; congruence | right; exact H].
Qed.

Lemma ids_emplace_perm k v l : Permutation (ids (emplace k v l)) (id v :: ids l).
Proof.
  exact (Permutation_map (fun e => id (snd e)) (emplace_perm k v l)).
Qed.

Lemma emplace_sorted k v l : sorted l -> sorted (emplace k v l).
Proof.
  unfold sorted. induction l as [|[k' v'] r IH]; simpl; intro H.
  - constructor; constructor.
  - inversion H as [|? ? Hr Hall]; subst.
    destruct (k <? k') eqn:E.
    + apply Z.ltb_lt in E. constructor; [exact H|].
      constructor; [simpl; lia|].
      eapply Forall_impl; [|exact Hall]. simpl. intros; lia.
    + apply Z.ltb_ge in E. constructor; [apply IH; exact Hr|].
      apply Forall_forall. intros e He. apply emplace_in in He.
      destruct He as [->|He]; [simpl; lia|].
      rewrite Forall_forall in Hall. apply Hall, He.
Qed.

Lemma sorted_tail e l : sorted (e :: l) -> sorted l.
Proof. intro H. inversion H; assumption. Qed.

Lemma sorted_head_min e l :
  sorted (e :: l) -> Forall (fun x => fst e <= fst x) l.
Proof. intro H. inversion H; assumption. Qed.

Lemma sorted_remove l1 e l2 : sorted (l1 ++ e :: l2) -> sorted (l1 ++ l2).
Proof.
  unfold sorted. induction l1 as [|a l1 IH]; simpl; intro H.
  - inversion H; assumption.
  - inversion H as [|? ? Hr Hall]; subst. constructor; [apply IH, Hr|].
    rewrite Forall_app in *. destruct Hall as [H1 H2].
    split; [exact H1|]. inversion H2; assumption.
Qed.

Lemma erase_id_none i l : erase_id i l = None <-> ~ In i (ids l).
Proof.
  induction l as [|[k d] r IH]; simpl.
  - split; [intros _ []|reflexivity].
  - destruct (id d =? i) eqn:E.
    + apply Z.eqb_eq in E. split; [discriminate|]. intro H. exfalso; apply H; left; exact E.
    + apply Z.eqb_neq in E. destruct (erase_id i r).
      * split; [discriminate|]. intro H. exfalso.
        assert (Hn : ~ In i (ids r)) by (intro; apply H; right; assumption).
        apply IH in Hn. discriminate.
      * split; [|reflexivity]. intros _ [H|H]; [exact (E H)|].
        destruct IH as [IH1 _]. exact (IH1 eq_refl H).
Qed.

Lemma erase_id_some i l l' :
  erase_id i l = Some l' ->
  exists l1 k d l2,
    l = l1 ++ (k, d) :: l2 /\ id d = i /\ ~ In i (ids l1) /\ l' = l1 ++ l2.
Proof.
  revert l'. induction l as [|[k d] r IH]; simpl; intros l' H; [discriminate|].
  destruct (id d =? i) eqn:E.
  - apply Z.eqb_eq in E. inversion H; subst l'.
    exists [], k, d, r. simpl. repeat split; auto.
  - apply Z.eqb_neq in E. destruct (erase_id i r) as [r'|]; [|discriminate].
    inversion H; subst l'. destruct (IH r' eq_refl) as (l1 & k0 & d0 & l2 & -> & Hid & Hn & ->).
    exists ((k, d) :: l1), k0, d0, l2. simpl. repeat split; auto.
    intros [H1|H1]; [exact (E H1)|exact (Hn H1)].
Qed.

Lemma ids_app l1 l2 : ids (l1 ++ l2) = ids l1 ++ ids l2.
Proof. unfold ids. apply map_app. Qed.

End MultimapFacts.

(** ** The invariant is kept by every step *)

Section Invariant.

Lemma WF_init : WF init.
Proof.
  constructor; simpl; try constructor.
  - lia.
  - unfold uint64_modulus. lia.
Qed.

Lemma next_id_schedule now delay cb rep s :
  1 <= next_id s -> next_id s + 1 < uint64_modulus ->
  next_id (fst (schedule now delay cb rep s)) = next_id s + 1.
Proof. intros H1 H2. simpl. apply Z.mod_small. lia. Qed.

Lemma held_in_hand w i : In i (held w) -> In i (in_hand w).
Proof. destruct w; simpl; tauto. Qed.

Lemma WF_schedule now delay cb rep s :
  WF s -> next_id s + 1 < uint64_modulus ->
  WF (fst (schedule now delay cb rep s)).
Proof.
  intros [Hn Hs Hd Hst Hh Hf] Hb.
  assert (E : (next_id s + 1) mod uint64_modulus = next_id s + 1)
    by (apply Z.mod_small; lia).
  constructor; simpl; rewrite ?E.
  - lia.
  - apply emplace_sorted, Hs.
  - eapply Permutation_NoDup.
    + apply Permutation_sym. eapply Permutation_trans.
      * apply Permutation_app_head. apply ids_emplace_perm.
      * apply Permutation_sym. apply Permutation_middle.
    + simpl. constructor; [|exact Hd].
      intro Hin. apply in_app_or in Hin. destruct Hin as [Hin|Hin].
      * apply held_in_hand in Hin. rewrite Forall_forall in Hh.
        specialize (Hh _ Hin). lia.
      * rewrite Forall_forall in Hst. specialize (Hst _ Hin). lia.
  - eapply Permutation_Forall; [apply Permutation_sym, ids_emplace_perm|].
    constructor; [simpl; lia|].
    eapply Forall_impl; [|exact Hst]. simpl. intros; lia.
  - eapply Forall_impl; [|exact Hh]. simpl. intros; lia.
  - eapply Forall_impl; [|exact Hf]. simpl. intros; lia.
Qed.

Lemma WF_cancel i s : WF s -> WF (fst (cancel i s)).
Proof.
  intros [Hn Hs Hd Hst Hh Hf]. unfold cancel.
  destruct (erase_id i (timers s)) as [l|] eqn:E; simpl; [|constructor; assumption].
  apply erase_id_some in E. destruct E as (l1 & k & d & l2 & El & Hid & Hni & ->).
  rewrite El in *. constructor; simpl; try assumption.
  - eapply sorted_remove, Hs.
  - rewrite ids_app in *. simpl in Hd. rewrite app_assoc in *.
    eapply NoDup_remove_1, Hd.
  - rewrite ids_app in *. rewrite Forall_app in *. destruct Hst as [H1 H2].
    split; [exact H1|]. inversion H2; assumption.
Qed.

Lemma WF_shutdown s : WF s -> WF (shutdown s).
Proof. intros [Hn Hs Hd Hst Hh Hf]. constructor; assumption. Qed.

Lemma WF_worker now s : WF s -> WF (worker_ now s).
Proof.
  intros [Hn Hs Hd Hst Hh Hf]. unfold worker_.
  destruct (worker s) as [|k data|k data|] eqn:Ew.
  - destruct (running s); simpl.
    + destruct (timers s) as [|[k data] rest] eqn:Et;
        [constructor; rewrite ?Ew, ?Et; assumption|].
      destruct (k <=? now); [|constructor; rewrite ?Ew, ?Et; assumption].
      simpl in Hd. inversion Hst as [|? ? Hk Hrest]; subst.
      constructor; simpl.
      * exact Hn.
      * eapply sorted_tail, Hs.
      * exact Hd.
      * exact Hrest.
      * constructor; [exact Hk|constructor].
      * exact Hf.
    + constructor; simpl; assumption.
  - simpl in Hd, Hh. inversion Hd as [|? ? Hnot Hd']; subst.
    destruct (repeat data =? 0); simpl.
    + constructor; simpl; assumption.
    + set (data' := if 0 <? repeat data then decrement data else data).
      assert (Eid : id data' = id data)
        by (unfold data'; destruct (0 <? repeat data); reflexivity).
      constructor; simpl.
      * exact Hn.
      * apply emplace_sorted, Hs.
      * eapply Permutation_NoDup; [apply Permutation_sym, ids_emplace_perm|].
        rewrite Eid. exact Hd.
      * eapply Permutation_Forall; [apply Permutation_sym, ids_emplace_perm|].
        rewrite Eid. inversion Hh; subst. constructor; assumption.
      * rewrite Eid. exact Hh.
      * exact Hf.
  - simpl in Hd, Hh. constructor; simpl.
    + exact Hn.
    + exact Hs.
    + exact Hd.
    + exact Hst.
    + constructor.
    + unfold fired_ids in *. simpl. rewrite map_app. apply Forall_app.
      split; [exact Hf|]. simpl. exact Hh.
  - constructor; rewrite ?Ew; assumption.
Qed.

Lemma WF_step o s :
  WF s -> (is_schedule o = true -> next_id s + 1 < uint64_modulus) ->
  WF (fst (step o s)).
Proof.
  intros H Hb. destruct o as [now delay cb rep|i| |now].
  - change (WF (fst (schedule now delay cb rep s))).
    apply WF_schedule; auto.
  - unfold step. destruct (cancel i s) eqn:E. simpl.
    change s0 with (fst (s0, b)). rewrite <- E. apply WF_cancel, H.
  - apply WF_shutdown, H.
  - apply WF_worker, H.
Qed.

End Invariant.

(** ** Runs *)

Section Runs.

Lemma run_app a b s : run (a ++ b) s = run b (run a s).
Proof. revert s. induction a as [|o a IH]; simpl; intro s; [reflexivity|apply IH]. Qed.

Lemma fired_step_grows o s : exists l, fired (fst (step o s)) = fired s ++ l.
Proof.
  destruct o as [now delay cb rep|i| |now].
  - exists []. simpl. rewrite app_nil_r. reflexivity.
  - exists []. unfold step, cancel. destruct (erase_id i (timers s)); simpl;
      rewrite app_nil_r; reflexivity.
  - exists []. simpl. rewrite app_nil_r. reflexivity.
  - simpl. unfold worker_. destruct (worker s) as [|k d|k d|].
    + exists []. rewrite app_nil_r. destruct (running s); simpl; [|reflexivity].
      destruct (timers s) as [|[k d] r]; [reflexivity|].
      destruct (k <=? now); reflexivity.
    + exists []. rewrite app_nil_r. destruct (repeat d =? 0); reflexivity.
    + eexists. reflexivity.
    + exists []. rewrite app_nil_r. reflexivity.
Qed.

Lemma fired_run_grows ops s : exists l, fired (run ops s) = fired s ++ l.
Proof.
  revert s. induction ops as [|o ops IH]; simpl; intro s.
  - exists []. rewrite app_nil_r. reflexivity.
  - destruct (fired_step_grows o s) as [l1 E1].
    destruct (IH (fst (step o s))) as [l2 E2].
    exists (l1 ++ l2). rewrite E2, E1, app_assoc. reflexivity.
Qed.

Lemma schedule_calls_nonneg ops : 0 <= schedule_calls ops.
Proof. unfold schedule_calls. lia. Qed.

Lemma schedule_calls_cons o ops :
  schedule_calls (o :: ops) =
  (if is_schedule o then 1 else 0) + schedule_calls ops.
Proof.
  unfold schedule_calls. simpl. destruct (is_schedule o); simpl length; lia.
Qed.

Lemma schedule_calls_app a b :
  schedule_calls (a ++ b) = schedule_calls a + schedule_calls b.
Proof.
  unfold schedule_calls. rewrite filter_app, length_app. lia.
Qed.

Lemma next_id_step o s :
  1 <= next_id s ->
  (is_schedule o = true -> next_id s + 1 < uint64_modulus) ->
  next_id (fst (step o s)) = next_id s + (if is_schedule o then 1 else 0).
Proof.
  intros H1 Hb. destruct o as [now delay cb rep|i| |now]; simpl.
  - apply Z.mod_small. specialize (Hb eq_refl). lia.
  - unfold cancel. destruct (erase_id i (timers s)); simpl; lia.
  - lia.
  - unfold worker_. destruct (worker s) as [|k d|k d|].
    + destruct (running s); simpl; [|lia].
      destruct (timers s) as [|[k d] r]; [lia|].
      destruct (k <=? now); simpl; lia.
    + destruct (repeat d =? 0); simpl; lia.
    + simpl; lia.
    + lia.
Qed.

Lemma fits_cons o ops s :
  WF s -> fits s (o :: ops) ->
  (is_schedule o = true -> next_id s + 1 < uint64_modulus) /\
  fits (fst (step o s)) ops.
Proof.
  intros Hwf Hf. unfold fits in *. rewrite schedule_calls_cons in Hf.
  pose proof (schedule_calls_nonneg ops) as Hnn.
  assert (Hb : is_schedule o = true -> next_id s + 1 < uint64_modulus).
  { intro E. rewrite E in Hf. lia. }
  split; [exact Hb|].
  rewrite next_id_step; [lia| apply (wf_next _ Hwf) | exact Hb].
Qed.

Lemma WF_run ops s : WF s -> fits s ops -> WF (run ops s).
Proof.
  revert s. induction ops as [|o ops IH]; simpl; intros s Hwf Hf; [exact Hwf|].
  destruct (fits_cons _ _ _ Hwf Hf) as [Hb Hf'].
  apply IH; [apply WF_step; assumption|exact Hf'].
Qed.

Lemma next_id_run ops s :
  WF s -> fits s ops -> next_id (run ops s) = next_id s + schedule_calls ops.
Proof.
  revert s. induction ops as [|o ops IH]; simpl; intros s Hwf Hf.
  - unfold schedule_calls. simpl. lia.
  - destruct (fits_cons _ _ _ Hwf Hf) as [Hb Hf'].
    rewrite IH; [|apply WF_step; assumption|exact Hf'].
    rewrite next_id_step; [|apply (wf_next _ Hwf)|exact Hb].
    rewrite schedule_calls_cons. lia.
Qed.

Lemma fits_app a b s :
  WF s -> fits s (a ++ b) -> fits s a /\ fits (run a s) b.
Proof.
  intros Hwf Hf. unfold fits in Hf. rewrite schedule_calls_app in Hf.
  pose proof (schedule_calls_nonneg a). pose proof (schedule_calls_nonneg b).
  assert (Ha : fits s a) by (unfold fits; lia).
  split; [exact Ha|]. unfold fits. rewrite next_id_run by assumption. lia.
Qed.

Lemma WF_reach ops : fits init ops -> WF (run ops init).
Proof. apply WF_run, WF_init. Qed.

Lemma returned_ids_run ops s :
  WF s -> fits s ops ->
  returned_ids (returns ops s) =
  iota (next_id s) (length (filter is_schedule ops)).
Proof.
  revert s. induction ops as [|o ops IH]; simpl; intros s Hwf Hf; [reflexivity|].
  destruct (fits_cons _ _ _ Hwf Hf) as [Hb Hf'].
  pose proof (WF_step o s Hwf Hb) as Hwf'.
  pose proof (next_id_step o s (proj1 (wf_next _ Hwf)) Hb) as Hn.
  specialize (IH _ Hwf' Hf'). rewrite Hn in IH.
  destruct o as [now delay cb rep|i| |now]; simpl in *.
  - rewrite IH. reflexivity.
  - destruct (cancel i s); simpl in *. rewrite IH. rewrite Z.add_0_r. reflexivity.
  - rewrite IH. rewrite Z.add_0_r. reflexivity.
  - rewrite IH. rewrite Z.add_0_r. reflexivity.
Qed.

Lemma iota_length a n : length (iota a n) = n.
Proof. revert a. induction n; simpl; intro a; [reflexivity|]. rewrite IHn. reflexivity. Qed.

Lemma iota_nth a n k : (k < n)%nat -> nth k (iota a n) 0 = a + Z.of_nat k.
Proof.
  revert a k. induction n as [|n IH]; intros a k Hk; [lia|].
  destruct k as [|k]; simpl nth; [lia|].
  rewrite IH by lia. lia.
Qed.

Lemma iota_lower a n : Forall (fun x => a <= x) (iota a n).
Proof.
  revert a. induction n as [|n IH]; intro a; simpl; constructor; [lia|].
  eapply Forall_impl; [|apply IH]. simpl. intros; lia.
Qed.

Lemma iota_increasing a n : StronglySorted Z.lt (iota a n).
Proof.
  revert a. induction n as [|n IH]; intro a; simpl; constructor; [apply IH|].
  eapply Forall_impl; [|apply iota_lower]. simpl. intros; lia.
Qed.

End Runs.

(** ** Cancellation *)

Section Cancel.

Lemma cancel_true_iff i s : snd (cancel i s) = true <-> In i (ids (timers s)).
Proof.
  unfold cancel. destruct (erase_id i (timers s)) as [l|] eqn:E; simpl.
  - split; [intros _|reflexivity].
    destruct (erase_id_some _ _ _ E) as (l1 & k & d & l2 & -> & Hid & _ & _).
    rewrite ids_app. apply in_or_app. right. left. exact Hid.
  - split; [discriminate|]. intro H. apply erase_id_none in E. contradiction.
Qed.

Lemma cancel_false_iff i s : snd (cancel i s) = false <-> ~ In i (ids (timers s)).
Proof.
  rewrite <- cancel_true_iff. destruct (snd (cancel i s)); split; congruence.
Qed.

Lemma cancel_false_same i s : snd (cancel i s) = false -> fst (cancel i s) = s.
Proof.
  unfold cancel. destruct (erase_id i (timers s)); simpl; [discriminate|reflexivity].
Qed.

Lemma cancel_true_shape i s :
  snd (cancel i s) = true ->
  exists l1 k d l2,
    timers s = l1 ++ (k, d) :: l2 /\ id d = i /\ ~ In i (ids l1) /\
    fst (cancel i s) = set_timers (l1 ++ l2) s.
Proof.
  unfold cancel. destruct (erase_id i (timers s)) as [l|] eqn:E; simpl; [|discriminate].
  intros _. destruct (erase_id_some _ _ _ E) as (l1 & k & d & l2 & El & Hid & Hn & ->).
  exists l1, k, d, l2. auto.
Qed.

Lemma cancel_true_retired i s :
  WF s -> snd (cancel i s) = true -> retired i (fst (cancel i s)).
Proof.
  intros Hwf Ht.
  destruct (cancel_true_shape _ _ Ht) as (l1 & k & d & l2 & El & Hid & Hn & ->).
  pose proof (wf_nodup _ Hwf) as Hd. pose proof (wf_store _ Hwf) as Hst.
  rewrite El in Hd, Hst. rewrite ids_app in Hd, Hst. simpl in Hd, Hst.
  rewrite Hid in Hd, Hst.
  unfold retired. simpl. split; [|split].
  - rewrite app_assoc in Hd. apply NoDup_remove_2 in Hd.
    rewrite ids_app. intro H. apply Hd. apply in_app_or in H.
    rewrite <- app_assoc. apply in_or_app. right. apply in_or_app. exact H.
  - rewrite Forall_app in Hst. destruct Hst as [_ Hst]. inversion Hst; lia.
  - intros k0 d0 Ew Hid0. exfalso.
    rewrite Ew in Hd. simpl in Hd. rewrite Hid0 in Hd.
    inversion Hd as [|? ? Hnot _]; subst. apply Hnot.
    apply in_or_app. right. left. reflexivity.
Qed.

Lemma retired_step i o s :
  1 <= next_id s ->
  (is_schedule o = true -> next_id s + 1 < uint64_modulus) ->
  retired i s -> retired i (fst (step o s)).
Proof.
  intros Hn Hb (Hni & Hlt & He).
  destruct o as [now delay cb rep|j| |now].
  - specialize (Hb eq_refl). unfold retired. simpl.
    rewrite Z.mod_small by lia. split; [|split; [lia|exact He]].
    intro H. apply (Permutation_in _ (ids_emplace_perm _ _ _)) in H.
    simpl in H. destruct H as [H|H]; [lia|exact (Hni H)].
  - unfold step, cancel. destruct (erase_id j (timers s)) as [l|] eqn:E; simpl.
    + destruct (erase_id_some _ _ _ E) as (l1 & k & d & l2 & El & _ & _ & ->).
      unfold retired. simpl. split; [|split; assumption].
      rewrite El in Hni. rewrite ids_app in *. simpl in Hni.
      intro H. apply Hni. apply in_app_or in H. apply in_or_app.
      destruct H as [H|H]; [left; exact H|right; right; exact H].
    + unfold retired. auto.
  - unfold retired. simpl. auto.
  - unfold retired. simpl. unfold worker_.
    destruct (worker s) as [|k d|k d|] eqn:Ew.
    + destruct (running s); simpl.
      * destruct (timers s) as [|[k d] r] eqn:Et; [rewrite Ew, Et; auto|].
        destruct (k <=? now); [|rewrite Ew, Et; auto]. simpl.
        simpl in Hni. split; [tauto|split; [exact Hlt|]].
        intros k0 d0 E Hid. inversion E; subst. tauto.
      * split; [exact Hni|split; [exact Hlt|discriminate]].
    + destruct (repeat d =? 0) eqn:Er; simpl.
      * split; [exact Hni|split; [exact Hlt|discriminate]].
      * apply Z.eqb_neq in Er. split; [|split; [exact Hlt|discriminate]].
        intro H. apply (Permutation_in _ (ids_emplace_perm _ _ _)) in H.
        simpl in H. destruct H as [H|H]; [|exact (Hni H)].
        apply Er. apply (He k d eq_refl).
        destruct (0 <? repeat d); exact H.
    + simpl. split; [exact Hni|split; [exact Hlt|discriminate]].
    + rewrite Ew. auto.
Qed.

Lemma retired_run i ops s :
  WF s -> fits s ops -> retired i s -> retired i (run ops s).
Proof.
  revert s. induction ops as [|o ops IH]; simpl; intros s Hwf Hf Hr; [exact Hr|].
  destruct (fits_cons _ _ _ Hwf Hf) as [Hb Hf'].
  apply IH; [apply WF_step; assumption|exact Hf'|].
  apply retired_step; [apply (wf_next _ Hwf)|exact Hb|exact Hr].
Qed.

Lemma retired_cancel_false i s : retired i s -> snd (cancel i s) = false.
Proof. intros (Hni & _). apply cancel_false_iff, Hni. Qed.

End Cancel.

(** ** Timer ids *)

(** C9. Ids are handed out from 1 upwards: over any interleaving of calls
    that stays within the 64-bit counter, the k-th [schedule] call returns
    k, the returned ids are strictly increasing (so none is handed out
    twice), and the entries of the multimap, together with the entry the
    worker may hold between erase and restart, carry pairwise distinct
    ids. *)
Theorem C9_ids_from_one_increasing_unique (ops : list Op) :
  fits init ops ->
  let rs := returned_ids (returns ops init) in
  rs = iota 1 (length (filter is_schedule ops)) /\
  (forall k, (k < length rs)%nat -> nth k rs 0 = Z.of_nat k + 1) /\
  StronglySorted Z.lt rs /\
  NoDup (held (worker (run ops init)) ++ ids (timers (run ops init))).
Proof.
  intros Hf rs.
  assert (E : rs = iota 1 (length (filter is_schedule ops))).
  { unfold rs. apply (returned_ids_run ops init WF_init Hf). }
  split; [exact E|]. split; [|split].
  - intros k Hk. rewrite E in *. rewrite iota_length in Hk.
    rewrite iota_nth by exact Hk. lia.
  - rewrite E. apply iota_increasing.
  - apply wf_nodup, WF_reach, Hf.
Qed.

Lemma C9_witness :
  fits init sample_ops /\
  returned_ids (returns sample_ops init) = [1; 2; 3].
Proof.
  split.
  - unfold fits, uint64_modulus. simpl. lia.
  - apply (C9_ids_from_one_increasing_unique sample_ops).
    unfold fits, uint64_modulus. simpl. lia.
Defined.

(** C4. In every reachable state [cancel i] returns true exactly when an
    entry with id [i] is in the multimap, and then that entry (the first
    and only one with this id) is erased; when it returns false the state
    is unchanged.  It returns false for an id that was never handed out,
    for an id whose single shot entry the worker has already taken out to
    fire, and, after a cancel that returned true, for every later cancel
    of that id, whatever calls come in between. *)
Theorem C4_cancel_true_iff_pending_once (pre : list Op) (i : TimerId) :
  fits init pre ->
  let s := run pre init in
  (snd (cancel i s) = true <-> In i (ids (timers s))) /\
  (snd (cancel i s) = true ->
     exists l1 k d l2,
       timers s = l1 ++ (k, d) :: l2 /\ id d = i /\
       fst (cancel i s) = set_timers (l1 ++ l2) s /\
       ~ In i (ids (l1 ++ l2))) /\
  (snd (cancel i s) = false -> fst (cancel i s) = s) /\
  (~ 1 <= i < next_id s -> snd (cancel i s) = false) /\
  (forall k d post,
     worker s = Erased k d -> id d = i -> repeat d = 0 ->
     fits init (pre ++ post) ->
     snd (cancel i (run (pre ++ post) init)) = false) /\
  (forall post,
     snd (cancel i s) = true ->
     fits init (pre ++ OCancel i :: post) ->
     snd (cancel i (run (pre ++ OCancel i :: post) init)) = false).
Proof.
  intros Hf s. pose proof (WF_reach _ Hf) as Hwf. fold s in Hwf.
  split; [apply cancel_true_iff|]. split; [|split; [apply cancel_false_same|split; [|split]]].
  - intro Ht. pose proof (cancel_true_retired _ _ Hwf Ht) as (Hni & _).
    destruct (cancel_true_shape _ _ Ht) as (l1 & k & d & l2 & El & Hid & _ & E).
    exists l1, k, d, l2. rewrite E in Hni. simpl in Hni. auto.
  - intro Hn. apply cancel_false_iff. intro Hin.
    pose proof (wf_store _ Hwf) as Hst. rewrite Forall_forall in Hst.
    apply Hn, Hst, Hin.
  - intros k d post Ew Hid Hr Hfp. rewrite run_app. fold s.
    destruct (fits_app _ _ _ WF_init Hfp) as [_ Hfpost]. fold s in Hfpost.
    apply retired_cancel_false. apply retired_run; [exact Hwf|exact Hfpost|].
    pose proof (wf_nodup _ Hwf) as Hd. pose proof (wf_hand _ Hwf) as Hh.
    rewrite Ew in Hd, Hh. simpl in Hd, Hh. rewrite Hid in Hd, Hh.
    split; [|split].
    + inversion Hd; assumption.
    + inversion Hh; lia.
    + intros k0 d0 E _. rewrite Ew in E. inversion E; subst. exact Hr.
  - intros post Ht Hfp. rewrite run_app. fold s.
    change (run (OCancel i :: post) s)
      with (run post (fst (step (OCancel i) s))).
    destruct (fits_app _ _ _ WF_init Hfp) as [_ Hfpost]. fold s in Hfpost.
    destruct (fits_cons _ _ _ Hwf Hfpost) as [_ Hfpost'].
    assert (E : fst (step (OCancel i) s) = fst (cancel i s)).
    { unfold step. destruct (cancel i s); reflexivity. }
    rewrite E in *.
    apply retired_cancel_false. apply retired_run.
    + apply WF_cancel, Hwf.
    + exact Hfpost'.
    + apply cancel_true_retired; assumption.
Qed.

Lemma C4_witness :
  fits init sample_ops /\
  (snd (cancel 2 (run sample_ops init)) = true <->
   In 2 (ids (timers (run sample_ops init)))).
Proof.
  assert (H : fits init sample_ops) by (unfold fits, uint64_modulus; simpl; lia).
  split; [exact H|].
  exact (proj1 (C4_cancel_true_iff_pending_once sample_ops 2 H)).
Defined.

(** ** Shutdown *)

Section Shutdown.

Lemma step_stopped o s :
  running s = false ->
  running (fst (step o s)) = false /\
  fired (fst (step o s)) ++ pending_call (worker (fst (step o s))) =
  fired s ++ pending_call (worker s).
Proof.
  intro Hr. destruct o as [now delay cb rep|i| |now].
  - simpl. auto.
  - unfold step, cancel. destruct (erase_id i (timers s)); simpl; auto.
  - simpl. auto.
  - simpl. unfold worker_. destruct (worker s) as [|k d|k d|] eqn:Ew.
    + rewrite Hr. simpl. auto.
    + destruct (repeat d =? 0); simpl; [auto|].
      destruct (0 <? repeat d); simpl; auto.
    + simpl. rewrite app_nil_r. auto.
    + rewrite Ew. auto.
Qed.

Lemma run_stopped ops s :
  running s = false ->
  running (run ops s) = false /\
  fired (run ops s) ++ pending_call (worker (run ops s)) =
  fired s ++ pending_call (worker s).
Proof.
  revert s. induction ops as [|o ops IH]; simpl; intros s Hr; [auto|].
  destruct (step_stopped o s Hr) as [Hr' E].
  destruct (IH _ Hr') as [Hr'' E']. split; [exact Hr''|congruence].
Qed.

Lemma pending_call_cases w : pending_call w = [] \/ exists e, pending_call w = [e].
Proof. destruct w; simpl; eauto. Qed.

Lemma run_stopped_fired ops s :
  running s = false ->
  fired (run ops s) = fired s \/
  fired (run ops s) = fired s ++ pending_call (worker s).
Proof.
  intro Hr. destruct (run_stopped ops s Hr) as [_ E].
  destruct (fired_run_grows ops s) as [l El]. rewrite El in *.
  rewrite <- app_assoc in E. apply app_inv_head in E.
  destruct (pending_call_cases (worker (run ops s))) as [H|[e H]]; rewrite H in E.
  - right. rewrite app_nil_r in E. rewrite E. reflexivity.
  - left. destruct (pending_call_cases (worker s)) as [H0|[e0 H0]]; rewrite H0 in E.
    + destruct l; discriminate.
    + destruct l as [|x l]; [rewrite app_nil_r; reflexivity|].
      destruct l; discriminate.
Qed.

End Shutdown.

(** C7, as the code has it.  [schedule] does not look at the running flag:
    called after the flag is cleared it still returns the next id and puts
    the entry into the multimap.  The entry is never fired: the callbacks
    run from then on are at most the one the worker was committed to. *)
Theorem C7_schedule_when_stopped_stored_never_fired
    (pre : list Op) (now : TimePoint) (delay : milliseconds) (cb : Closure)
    (rep : Z) (post : list Op) :
  fits init pre ->
  running (run pre init) = false ->
  let s := run pre init in
  let s' := fst (schedule now delay cb rep s) in
  snd (schedule now delay cb rep s) = next_id s /\
  In (now + to_ticks delay, mkTimerData (next_id s) cb rep delay) (timers s') /\
  length (timers s') = S (length (timers s)) /\
  (fired (run post s') = fired s \/
   fired (run post s') = fired s ++ pending_call (worker s)) /\
  ~ In (next_id s) (fired_ids (run post s')).
Proof.
  intros Hf Hr s s'. pose proof (WF_reach _ Hf) as Hwf. fold s in Hwf, Hr.
  assert (Hrun : fired (run post s') = fired s \/
                 fired (run post s') = fired s ++ pending_call (worker s)).
  { apply (run_stopped_fired post s'). exact Hr. }
  split; [reflexivity|]. split; [|split; [|split; [exact Hrun|]]].
  - apply emplace_in. left. reflexivity.
  - unfold s'. simpl. rewrite (Permutation_length (emplace_perm _ _ _)). reflexivity.
  - pose proof (wf_fired _ Hwf) as Hfi. pose proof (wf_hand _ Hwf) as Hh.
    rewrite Forall_forall in Hfi, Hh. unfold fired_ids in *.
    intro Hin. destruct Hrun as [E|E]; rewrite E in Hin.
    + specialize (Hfi _ Hin). lia.
    + rewrite map_app in Hin. apply in_app_or in Hin. destruct Hin as [Hin|Hin].
      * specialize (Hfi _ Hin). lia.
      * assert (Hin' : In (next_id s) (in_hand (worker s))).
        { destruct (worker s); simpl in *; tauto. }
        specialize (Hh _ Hin'). lia.
Qed.

Lemma C7_witness :
  fits init stop_during_call /\ running (run stop_during_call init) = false /\
  snd (schedule 0 100 (mkClosure 1 7) 0 (run stop_during_call init)) = 2.
Proof.
  assert (H : fits init stop_during_call)
    by (unfold fits, uint64_modulus; simpl; lia).
  split; [exact H|]. split; [reflexivity|].
  exact (proj1 (C7_schedule_when_stopped_stored_never_fired
                  stop_during_call 0 100 (mkClosure 1 7) 0 [] H eq_refl)).
Defined.

Lemma C7_counterexample :
  run stop_during_call init =
    mkState [] false 2 (Calling 0 (mkTimerData 1 (mkClosure 0 42) 0 0)) [] /\
  step (OSchedule 0 100 (mkClosure 1 7) 0) (run stop_during_call init) =
    (mkState [(100000000, mkTimerData 2 (mkClosure 1 7) 0 100)]
             false 3 (Calling 0 (mkTimerData 1 (mkClosure 0 42) 0 0)) [],
     RId 2) /\
  ~ schedule_rejected_when_stopped.
Proof.
  split; [reflexivity|]. split; [reflexivity|].
  intro H. specialize (H stop_during_call 0 100 (mkClosure 1 7) 0).
  assert (Hf : fits init stop_during_call)
    by (unfold fits, uint64_modulus; simpl; lia).
  specialize (H Hf eq_refl). discriminate H.
Qed.

(** C8, as the code has it.  Once the running flag is cleared the worker
    erases nothing more: whatever calls follow, the callbacks run are those
    run before, plus at most the one the worker was committed to when the
    flag was cleared, and a worker standing at the loop head leaves the loop
    at its next turn.  [cancel] does not look at the flag: it still returns
    true exactly for the ids in the multimap. *)
Theorem C8_stopped_worker_fires_nothing_pending (s : State) (post : list Op) :
  (fired (run post (shutdown s)) = fired s \/
   fired (run post (shutdown s)) = fired s ++ pending_call (worker s)) /\
  (pending_call (worker s) = [] -> fired (run post (shutdown s)) = fired s) /\
  (worker s = AtLoopHead ->
   forall now, worker_ now (shutdown s) = set_worker Exited (shutdown s)) /\
  (forall now, worker_ now (set_worker Exited (shutdown s)) =
               set_worker Exited (shutdown s)) /\
  (forall i,
     snd (cancel i (run post (shutdown s))) = true <->
     In i (ids (timers (run post (shutdown s))))).
Proof.
  assert (H : fired (run post (shutdown s)) = fired s \/
              fired (run post (shutdown s)) = fired s ++ pending_call (worker s)).
  { apply (run_stopped_fired post (shutdown s)). reflexivity. }
  split; [exact H|]. split; [|split; [|split]].
  - intro E. rewrite E, app_nil_r in H. tauto.
  - intros Ew now. unfold worker_. simpl. rewrite Ew. reflexivity.
  - intro now. reflexivity.
  - intro i. apply cancel_true_iff.
Qed.

Lemma C8_witness :
  fired (run [OWorker 0; OCancel 2] (shutdown (run stop_during_call_one_pending init))) = [] \/
  fired (run [OWorker 0; OCancel 2] (shutdown (run stop_during_call_one_pending init))) =
    [mkFired 1 0 (mkClosure 0 42)].
Proof.
  exact (proj1 (C8_stopped_worker_fires_nothing_pending
                  (run stop_during_call_one_pending init) [OWorker 0; OCancel 2])).
Defined.

Lemma C8_counterexample :
  run stop_during_call_one_pending init =
    mkState [(100000000, mkTimerData 2 (mkClosure 1 7) 0 100)] false 3
            (Calling 0 (mkTimerData 1 (mkClosure 0 42) 0 0)) [] /\
  step (OCancel 2) (run stop_during_call_one_pending init) =
    (mkState [] false 3 (Calling 0 (mkTimerData 1 (mkClosure 0 42) 0 0)) [],
     RBool true) /\
  ~ cancel_false_when_stopped.
Proof.
  split; [reflexivity|]. split; [reflexivity|].
  intro H. specialize (H stop_during_call_one_pending 2).
  assert (Hf : fits init stop_during_call_one_pending)
    by (unfold fits, uint64_modulus; simpl; lia).
  specialize (H Hf eq_refl). discriminate H.
Qed.

(** ** Firing *)

(** C3, as the code has it.  The worker erases an entry before it fires it:
    while it holds the entry, no entry with that id is in the multimap.  A
    single shot entry ([repeat] 0) is not put back, and its id is never in
    the multimap again, so not while its callback runs.  An entry with
    [repeat] not 0 is put back by [schedule_until] before the callback is
    called: when its callback starts, an entry with its id is in the
    multimap again. *)
Theorem C3_erased_first_restarted_before_call
    (pre : list Op) (k : TimePoint) (d : TimerData) :
  fits init pre ->
  worker (run pre init) = Erased k d ->
  let s := run pre init in
  ~ In (id d) (ids (timers s)) /\
  (repeat d = 0 ->
   (forall now, worker_ now s = set_worker (Calling k d) s) /\
   (forall post, fits init (pre ++ post) ->
                 ~ In (id d) (ids (timers (run (pre ++ post) init))))) /\
  (repeat d <> 0 ->
   forall now, exists d',
     worker (worker_ now s) = Calling k d' /\ id d' = id d /\
     In (k + to_ticks (period d), d') (timers (worker_ now s)) /\
     In (id d) (ids (timers (worker_ now s)))).
Proof.
  intros Hf Ew s. pose proof (WF_reach _ Hf) as Hwf. fold s in Hwf, Ew.
  pose proof (wf_nodup _ Hwf) as Hd. pose proof (wf_hand _ Hwf) as Hh.
  rewrite Ew in Hd, Hh. simpl in Hd, Hh.
  assert (Hni : ~ In (id d) (ids (timers s))) by (inversion Hd; assumption).
  split; [exact Hni|]. split.
  - intro Hr. split.
    + intro now. unfold worker_. rewrite Ew, Hr. reflexivity.
    + intros post Hfp. rewrite run_app. fold s.
      destruct (fits_app _ _ _ WF_init Hfp) as [_ Hfpost]. fold s in Hfpost.
      apply (retired_run (id d) post s Hwf Hfpost).
      split; [exact Hni|]. split; [inversion Hh; lia|].
      intros k0 d0 E _. rewrite Ew in E. inversion E; subst. exact Hr.
  - intros Hr now. unfold worker_. rewrite Ew.
    apply Z.eqb_neq in Hr. rewrite Hr. simpl.
    set (d' := if 0 <? repeat d then decrement d else d).
    assert (Eid : id d' = id d) by (unfold d'; destruct (0 <? repeat d); reflexivity).
    assert (Ep : period d' = period d) by (unfold d'; destruct (0 <? repeat d); reflexivity).
    exists d'. split; [reflexivity|]. split; [exact Eid|].
    assert (Hin : In (k + to_ticks (period d), d')
                     (emplace (k + to_ticks (period d')) d' (timers s))).
    { rewrite Ep. apply emplace_in. left. reflexivity. }
    split; [exact Hin|].
    rewrite <- Eid. unfold ids.
    apply (in_map (fun e => id (snd e)) _ _ Hin).
Qed.

Lemma C3_witness :
  fits init [OSchedule 0 100 (mkClosure 0 42) 1; OWorker 100000000] /\
  worker (run [OSchedule 0 100 (mkClosure 0 42) 1; OWorker 100000000] init) =
    Erased 100000000 (mkTimerData 1 (mkClosure 0 42) 1 100) /\
  ~ In 1 (ids (timers (run [OSchedule 0 100 (mkClosure 0 42) 1;
                            OWorker 100000000] init))).
Proof.
  assert (H : fits init [OSchedule 0 100 (mkClosure 0 42) 1; OWorker 100000000])
    by (unfold fits, uint64_modulus; simpl; lia).
  split; [exact H|]. split; [reflexivity|].
  exact (proj1 (C3_erased_first_restarted_before_call
                  [OSchedule 0 100 (mkClosure 0 42) 1; OWorker 100000000]
                  100000000 (mkTimerData 1 (mkClosure 0 42) 1 100) H eq_refl)).
Defined.

Lemma C3_counterexample :
  run periodic_first_call init =
    mkState [(200000000, mkTimerData 1 (mkClosure 0 42) 0 100)] true 2
            (Calling 100000000 (mkTimerData 1 (mkClosure 0 42) 0 100)) [] /\
  ~ never_stored_while_called.
Proof.
  split; [reflexivity|].
  intro H.
  assert (Hf : fits init periodic_first_call)
    by (unfold fits, uint64_modulus; simpl; lia).
  apply (H periodic_first_call 100000000
           (mkTimerData 1 (mkClosure 0 42) 0 100) Hf eq_refl).
  simpl. left. reflexivity.
Qed.

(** ** Cadence of a timer *)

Section Cadence.

Variables (i : TimerId) (t0 : TimePoint) (delay : milliseconds).

Lemma to_ticks_succ a : to_ticks ((a + 1) * delay) = to_ticks (a * delay) + to_ticks delay.
Proof. unfold to_ticks. lia. Qed.

Lemma in_ids_entry (l : Store) k d : In (k, d) l -> In (id d) (ids l).
Proof. intro H. unfold ids. apply (in_map (fun e => id (snd e)) _ _ H). Qed.

Lemma due_times_same s s' : fired s' = fired s -> due_times i s' = due_times i s.
Proof. unfold due_times. intros ->. reflexivity. Qed.

Lemma cadence_store_change s l :
  cadence i t0 delay s ->
  (forall e, In e l -> In e (timers s) \/ id (snd e) <> i) ->
  cadence i t0 delay (set_timers l s).
Proof.
  intros (H1 & H2 & H3) Hl. unfold cadence.
  rewrite (due_times_same s (set_timers l s)) by reflexivity.
  split; [exact H1|]. split; [|exact H3].
  intros k d Hin Hid. simpl in *. destruct (Hl _ Hin) as [H|H]; [|simpl in H; tauto].
  apply H2; assumption.
Qed.

Lemma cadence_schedule now dl cb rep s :
  WF s -> i < next_id s -> cadence i t0 delay s ->
  cadence i t0 delay (fst (schedule now dl cb rep s)).
Proof.
  intros Hwf Hlt Hc.
  apply (cadence_store_change s
           (emplace (now + to_ticks dl) (mkTimerData (next_id s) cb rep dl) (timers s)))
    in Hc.
  - destruct Hc as (H1 & H2 & H3). split; [exact H1|]. split; [exact H2|exact H3].
  - intros e He. apply emplace_in in He. destruct He as [->|He]; [|left; exact He].
    right. simpl. lia.
Qed.

Lemma cadence_cancel j s :
  cadence i t0 delay s -> cadence i t0 delay (fst (cancel j s)).
Proof.
  intro Hc. unfold cancel. destruct (erase_id j (timers s)) as [l|] eqn:E; [|exact Hc].
  simpl. apply cadence_store_change; [exact Hc|].
  intros e He. left.
  destruct (erase_id_some _ _ _ E) as (l1 & k & d & l2 & -> & _ & _ & ->).
  apply in_app_or in He. apply in_or_app. destruct He; [left|right; right]; assumption.
Qed.

Lemma due_times_snoc s s' e :
  fired s' = fired s ++ [e] ->
  due_times i s' =
  due_times i s ++ (if f_id e =? i then [f_due e] else []).
Proof.
  unfold due_times. intros ->. rewrite filter_app, map_app. simpl.
  destruct (f_id e =? i); reflexivity.
Qed.

Lemma cadence_worker now s :
  WF s -> cadence i t0 delay s -> cadence i t0 delay (worker_ now s).
Proof.
  intros Hwf (H1 & H2 & H3). pose proof (wf_nodup _ Hwf) as Hd.
  unfold worker_. destruct (worker s) as [|k d|k d|] eqn:Ew.
  - destruct (running s); simpl.
    + destruct (timers s) as [|[k d] rest] eqn:Et;
        [unfold cadence; rewrite Ew, Et; auto|].
      destruct (k <=? now); [|unfold cadence; rewrite Ew, Et; auto].
      unfold cadence. rewrite (due_times_same s) by reflexivity. simpl.
      split; [exact H1|]. split.
      * intros k' d' Hin Hid. apply (H2 k' d'); [right; exact Hin|exact Hid].
      * intros k' d' [E|E] Hid; inversion E; subst k' d'.
        destruct (H2 k d (or_introl eq_refl) Hid) as [Hp Hk].
        simpl in Hk. split; [exact Hp|]. rewrite Hk. f_equal. f_equal. lia.
    + unfold cadence. rewrite (due_times_same s) by reflexivity. simpl.
      split; [exact H1|]. split; [exact H2|].
      intros k d [E|E]; discriminate.
  - simpl in Hd. inversion Hd as [|? ? Hnot _]; subst.
    assert (Hstore : forall k' e, In (k', e) (timers s) -> id e = i -> id d <> i).
    { intros k' e Hin Hid Hdi. apply Hnot. rewrite Hdi, <- Hid.
      eapply in_ids_entry, Hin. }
    destruct (repeat d =? 0); simpl.
    + unfold cadence. rewrite (due_times_same s) by reflexivity. simpl.
      split; [exact H1|]. split.
      * intros k' e Hin Hid. pose proof (Hstore _ _ Hin Hid) as Hne.
        apply Z.eqb_neq in Hne. rewrite Hne. simpl in H2. apply H2; assumption.
      * intros k' d' [E|E] Hid; inversion E; subst k' d'.
        apply H3; auto.
    + set (d' := if 0 <? repeat d then decrement d else d).
      assert (Eid : id d' = id d)
        by (unfold d'; destruct (0 <? repeat d); reflexivity).
      assert (Ep : period d' = period d)
        by (unfold d'; destruct (0 <? repeat d); reflexivity).
      unfold cadence. rewrite (due_times_same s) by reflexivity. simpl.
      split; [exact H1|]. split.
      * intros k' e Hin Hid. apply emplace_in in Hin. destruct Hin as [E|Hin].
        -- inversion E; subst k' e. rewrite Eid in Hid.
           destruct (H3 k d (or_introl eq_refl) Hid) as [Hp Hk].
           rewrite Eid. apply Z.eqb_eq in Hid. rewrite Hid.
           rewrite Ep, Hp. split; [reflexivity|].
           rewrite Hk at 1. rewrite (to_ticks_succ (Z.of_nat _ + 1)). lia.
        -- pose proof (Hstore _ _ Hin Hid) as Hne. rewrite Eid.
           apply Z.eqb_neq in Hne. rewrite Hne. simpl in H2. apply H2; assumption.
      * intros k' e [E|E] Hid; inversion E; subst k' e.
        rewrite Eid in Hid. rewrite Ep. apply H3; auto.
  - set (ev := mkFired (id d) k (callback d)).
    pose proof (due_times_snoc s
      (mkState (timers s) (running s) (next_id s) AtLoopHead (fired s ++ [ev]))
      ev eq_refl) as Edue.
    unfold cadence. rewrite Edue. simpl. simpl in H2.
    destruct (id d =? i) eqn:Ei.
    + apply Z.eqb_eq in Ei.
      destruct (H3 k d (or_intror eq_refl) Ei) as [Hp Hk].
      rewrite length_app. simpl length. rewrite Nat.add_1_r.
      rewrite seq_S, map_app, Nat2Z.inj_succ. unfold Z.succ.
      cbn [map seq app timers worker calling Nat.add f_due ev].
      split; [rewrite <- H1, Hk; reflexivity|]. split.
      * intros k' e Hin Hid. destruct (H2 k' e Hin Hid) as [Hp' Hk'].
        split; [exact Hp'|]. rewrite Hk'. f_equal. f_equal. lia.
      * intros k' e [E|E]; discriminate.
    + rewrite app_nil_r. split; [exact H1|]. split.
      * intros k' e Hin Hid. apply H2; assumption.
      * intros k' e [E|E]; discriminate.
  - unfold cadence. rewrite Ew. auto.
Qed.

Lemma cadence_step o s :
  WF s -> i < next_id s -> cadence i t0 delay s ->
  cadence i t0 delay (fst (step o s)).
Proof.
  intros Hwf Hlt Hc. destruct o as [now dl cb rep|j| |now].
  - apply (cadence_schedule now dl cb rep s Hwf Hlt Hc).
  - assert (E : fst (step (OCancel j) s) = fst (cancel j s))
      by (unfold step; destruct (cancel j s); reflexivity).
    rewrite E. apply cadence_cancel, Hc.
  - exact Hc.
  - apply cadence_worker; assumption.
Qed.

Lemma cadence_run ops s :
  WF s -> fits s ops -> i < next_id s -> cadence i t0 delay s ->
  cadence i t0 delay (run ops s).
Proof.
  revert s. induction ops as [|o ops IH]; simpl; intros s Hwf Hf Hlt Hc; [exact Hc|].
  destruct (fits_cons _ _ _ Hwf Hf) as [Hb Hf'].
  apply IH.
  - apply WF_step; assumption.
  - exact Hf'.
  - rewrite next_id_step; [|apply (wf_next _ Hwf)|exact Hb].
    destruct (is_schedule o); lia.
  - apply cadence_step; assumption.
Qed.

End Cadence.

Lemma nth_map_seq (f : nat -> Z) a n j :
  (j < n)%nat -> nth j (map f (seq a n)) 0 = f (a + j)%nat.
Proof.
  revert a j. induction n as [|n IH]; intros a j Hj; [lia|].
  destruct j as [|j]; simpl.
  - rewrite Nat.add_0_r. reflexivity.
  - rewrite IH by lia. f_equal. lia.
Qed.

Lemma due_times_fresh i s :
  Forall (fun j => 1 <= j < i) (fired_ids s) -> due_times i s = [].
Proof.
  unfold due_times, fired_ids. induction (fired s) as [|e l IH]; simpl; intro H.
  - reflexivity.
  - inversion H as [|? ? He Hl]; subst.
    destruct (f_id e =? i) eqn:E; [apply Z.eqb_eq in E; lia|apply IH, Hl].
Qed.

Lemma cadence_start now delay cb rep s :
  WF s ->
  cadence (next_id s) now delay (fst (schedule now delay cb rep s)).
Proof.
  intro Hwf. pose proof (wf_store _ Hwf) as Hst. pose proof (wf_hand _ Hwf) as Hh.
  rewrite Forall_forall in Hst, Hh.
  unfold cadence.
  rewrite (due_times_same _ s (fst (schedule now delay cb rep s))) by reflexivity.
  rewrite (due_times_fresh _ _ (wf_fired _ Hwf)). simpl.
  split; [reflexivity|]. split.
  - intros k d Hin Hid. apply emplace_in in Hin. destruct Hin as [E|Hin].
    + inversion E; subst k d. simpl. split; [reflexivity|].
      assert (Ec : calling (next_id s) (worker s) = 0).
      { destruct (worker s) as [|k0 d0|k0 d0|] eqn:Ew; simpl; try reflexivity.
        destruct (id d0 =? next_id s) eqn:E0; [|reflexivity].
        apply Z.eqb_eq in E0. specialize (Hh (id d0) (or_introl eq_refl)). lia. }
      rewrite Ec. f_equal. unfold to_ticks. lia.
    + apply in_ids_entry in Hin. specialize (Hst _ Hin). lia.
  - intros k d Hw Hid. exfalso.
    assert (Hin : In (id d) (in_hand (worker s))).
    { destruct Hw as [-> | ->]; left; reflexivity. }
    specialize (Hh _ Hin). lia.
Qed.

(** [schedule] stores its [delay] argument as the period of the entry, and
    every restart keeps it.  In the runs of [run], where the freed node
    keeps its key until line 155 has read it, the firings of the timer are
    due, in order, at the clock reading of the [schedule] call plus
    [delay], plus twice [delay], and so on. *)
Lemma cadence_kept_while_node_intact
    (pre : list Op) (now : TimePoint) (delay : milliseconds) (cb : Closure)
    (rep : Z) (post : list Op) :
  fits init (pre ++ OSchedule now delay cb rep :: post) ->
  let i := next_id (run pre init) in
  let sf := run (pre ++ OSchedule now delay cb rep :: post) init in
  snd (schedule now delay cb rep (run pre init)) = i /\
  (forall j, (j < length (due_times i sf))%nat ->
     nth j (due_times i sf) 0 = now + to_ticks ((Z.of_nat j + 1) * delay)) /\
  (forall k d, In (k, d) (timers sf) -> id d = i -> period d = delay) /\
  (forall k d, worker sf = Erased k d -> id d = i ->
     period d = delay /\
     k = now + to_ticks ((Z.of_nat (length (due_times i sf)) + 1) * delay)).
Proof.
  intros Hf i sf.
  destruct (fits_app _ _ _ WF_init Hf) as [Hfpre Hfrest].
  pose proof (WF_reach _ Hfpre) as Hwf.
  destruct (fits_cons _ _ _ Hwf Hfrest) as [Hb Hfpost].
  assert (Hc : cadence i now delay sf).
  { unfold sf. rewrite run_app.
    change (run (OSchedule now delay cb rep :: post) (run pre init))
      with (run post (fst (schedule now delay cb rep (run pre init)))).
    apply cadence_run.
    - apply WF_schedule; [exact Hwf|apply Hb; reflexivity].
    - exact Hfpost.
    - rewrite next_id_schedule; [unfold i; lia|apply (wf_next _ Hwf)|apply Hb; reflexivity].
    - apply cadence_start, Hwf. }
  destruct Hc as (H1 & H2 & H3).
  split; [reflexivity|]. split; [|split].
  - intros j Hj. rewrite H1. rewrite nth_map_seq by exact Hj. reflexivity.
  - intros k d Hin Hid. apply (H2 k d Hin Hid).
  - intros k d Ew Hid. apply (H3 k d (or_introl Ew) Hid).
Qed.

(** ** Counting the firings of a timer *)

Section Countdown.

Variable i : TimerId.

Lemma stored_firings_emplace k v l :
  stored_firings i (emplace k v l) =
  (if id v =? i then repeat v + 1 else 0) + stored_firings i l.
Proof.
  induction l as [|[k' v'] r IH]; simpl; [reflexivity|].
  destruct (k <? k'); simpl; [reflexivity|]. rewrite IH. lia.
Qed.

Lemma stored_firings_app l1 l2 :
  stored_firings i (l1 ++ l2) = stored_firings i l1 + stored_firings i l2.
Proof.
  induction l1 as [|[k d] r IH]; simpl; [reflexivity|]. rewrite IH. lia.
Qed.

Lemma stored_firings_nonneg l :
  (forall k d, In (k, d) l -> id d = i -> 0 <= repeat d) ->
  0 <= stored_firings i l.
Proof.
  induction l as [|[k d] r IH]; simpl; intro H; [lia|].
  assert (0 <= stored_firings i r) by (apply IH; intros; eapply H; eauto).
  destruct (id d =? i) eqn:E; [|lia].
  apply Z.eqb_eq in E. specialize (H k d (or_introl eq_refl) E). lia.
Qed.

Lemma stored_firings_zero l :
  (forall k d, In (k, d) l -> id d = i -> 0 <= repeat d) ->
  (stored_firings i l = 0 <-> ~ In i (ids l)).
Proof.
  induction l as [|[k d] r IH]; simpl; intro H; [tauto|].
  assert (Hr : forall k d, In (k, d) r -> id d = i -> 0 <= repeat d)
    by (intros; eapply H; eauto).
  pose proof (stored_firings_nonneg r Hr) as Hnn. specialize (IH Hr).
  destruct (id d =? i) eqn:E.
  - apply Z.eqb_eq in E. pose proof (H k d (or_introl eq_refl) E).
    split; [lia|]. intro Hn. exfalso. apply Hn. left. exact E.
  - apply Z.eqb_neq in E. rewrite Z.add_0_l. rewrite IH. tauto.
Qed.

Lemma held_firings_zero w :
  (forall k d, w = Erased k d -> id d = i -> 0 <= repeat d) ->
  (held_firings i w = 0 <-> ~ In i (in_hand w)).
Proof.
  intro H. destruct w as [|k d|k d|]; simpl; try tauto.
  - destruct (id d =? i) eqn:E.
    + apply Z.eqb_eq in E. pose proof (H k d eq_refl E). split; [lia|tauto].
    + apply Z.eqb_neq in E. tauto.
  - destruct (id d =? i) eqn:E.
    + apply Z.eqb_eq in E. split; [lia|tauto].
    + apply Z.eqb_neq in E. tauto.
Qed.

Lemma held_firings_nonneg w :
  (forall k d, w = Erased k d -> id d = i -> 0 <= repeat d) ->
  0 <= held_firings i w.
Proof.
  intro H. destruct w as [|k d|k d|]; simpl; try lia.
  - destruct (id d =? i) eqn:E; [|lia].
    apply Z.eqb_eq in E. pose proof (H k d eq_refl E). lia.
  - destruct (id d =? i); lia.
Qed.

Lemma fire_count_same s s' : fired s' = fired s -> fire_count i s' = fire_count i s.
Proof. intro E. unfold fire_count. rewrite (due_times_same i s s' E). reflexivity. Qed.

Lemma countdown_worker now s :
  counted i s ->
  counted i (worker_ now s) /\
  fire_count i (worker_ now s) + remaining i (worker_ now s) =
  fire_count i s + remaining i s.
Proof.
  intro Hc. pose proof Hc as [Hs Hw]. pose proof (eq_refl (remaining i s)) as Hrem.
  unfold remaining at 2 in Hrem. unfold worker_.
  destruct (worker s) as [|k d|k d|] eqn:Ew.
  - destruct (running s); simpl.
    + destruct (timers s) as [|[k d] rest] eqn:Et; [split; [exact Hc|reflexivity]|].
      destruct (k <=? now); [|split; [exact Hc|reflexivity]].
      split.
      * split; simpl.
        -- intros k' d' Hin. apply (Hs k' d'). right. exact Hin.
        -- intros k' d' E. inversion E; subst. apply (Hs k' d'). left. reflexivity.
      * rewrite (fire_count_same s) by reflexivity. rewrite Hrem.
        unfold remaining. simpl. lia.
    + split; [split; [exact Hs|discriminate]|].
      rewrite (fire_count_same s) by reflexivity. rewrite Hrem.
      unfold remaining. simpl. reflexivity.
  - destruct (repeat d =? 0) eqn:Er; simpl.
    + apply Z.eqb_eq in Er. split; [split; [exact Hs|discriminate]|].
      rewrite (fire_count_same s) by reflexivity. rewrite Hrem.
      unfold remaining. simpl.
      destruct (id d =? i); lia.
    + apply Z.eqb_neq in Er.
      set (d' := if 0 <? repeat d then decrement d else d).
      assert (Eid : id d' = id d)
        by (unfold d'; destruct (0 <? repeat d); reflexivity).
      assert (Erep : id d = i -> repeat d' = repeat d - 1 /\ 0 <= repeat d').
      { intro Hid. pose proof (Hw k d eq_refl Hid) as H0. unfold d'.
        destruct (0 <? repeat d) eqn:E0; [simpl; lia|].
        apply Z.ltb_ge in E0. lia. }
      split.
      * split; simpl; [|discriminate].
        intros k' e Hin Hid. apply emplace_in in Hin. destruct Hin as [E|Hin].
        -- inversion E; subst k' e. rewrite Eid in Hid. apply Erep, Hid.
        -- apply (Hs k' e Hin Hid).
      * rewrite (fire_count_same s) by reflexivity. rewrite Hrem.
        unfold remaining. simpl.
        rewrite stored_firings_emplace, Eid.
        destruct (id d =? i) eqn:Ei; [|lia].
        apply Z.eqb_eq in Ei. destruct (Erep Ei). lia.
  - split; [split; [exact Hs|discriminate]|]. rewrite Hrem.
    set (s' := mkState (timers s) (running s) (next_id s) AtLoopHead
                 (fired s ++ [mkFired (id d) k (callback d)])).
    unfold fire_count.
    rewrite (due_times_snoc i s s' (mkFired (id d) k (callback d)) eq_refl).
    rewrite length_app. unfold remaining. simpl.
    destruct (id d =? i); simpl length; lia.
  - split; [exact Hc|reflexivity].
Qed.

Lemma countdown_step o s :
  i < next_id s -> counted i s ->
  counted i (fst (step o s)) /\
  fire_count i (fst (step o s)) + remaining i (fst (step o s)) <=
    fire_count i s + remaining i s /\
  (o <> OCancel i ->
   fire_count i (fst (step o s)) + remaining i (fst (step o s)) =
   fire_count i s + remaining i s).
Proof.
  intros Hlt [Hs Hw]. destruct o as [now dl cb rep|j| |now].
  - assert (Hne : (next_id s =? i) = false) by (apply Z.eqb_neq; lia).
    assert (E : fire_count i (fst (step (OSchedule now dl cb rep) s)) +
                remaining i (fst (step (OSchedule now dl cb rep) s)) =
                fire_count i s + remaining i s).
    { rewrite (fire_count_same s) by reflexivity. unfold remaining. simpl.
      rewrite stored_firings_emplace. simpl. rewrite Hne. lia. }
    split; [|split; [lia|intros _; exact E]].
    split; simpl; [|exact Hw].
    intros k d Hin Hid. apply emplace_in in Hin. destruct Hin as [E0|Hin].
    + inversion E0; subst k d. simpl in Hid. lia.
    + apply (Hs k d Hin Hid).
  - assert (E : fst (step (OCancel j) s) = fst (cancel j s))
      by (unfold step; destruct (cancel j s); reflexivity).
    rewrite E. unfold cancel.
    destruct (erase_id j (timers s)) as [l|] eqn:Ee; simpl;
      [|split; [split; assumption|split; [lia|reflexivity]]].
    destruct (erase_id_some _ _ _ Ee) as (l1 & k & d & l2 & El & Hid & _ & ->).
    assert (Hc : 0 <= (if id d =? i then repeat d + 1 else 0)).
    { destruct (id d =? i) eqn:Ei; [|lia]. apply Z.eqb_eq in Ei.
      assert (Hin : In (k, d) (timers s))
        by (rewrite El; apply in_or_app; right; left; reflexivity).
      pose proof (Hs k d Hin Ei). lia. }
    assert (Esum : remaining i (set_timers (l1 ++ l2) s) +
                   (if id d =? i then repeat d + 1 else 0) = remaining i s).
    { unfold remaining. simpl. rewrite El, !stored_firings_app. simpl. lia. }
    rewrite (fire_count_same s (set_timers (l1 ++ l2) s)) by reflexivity.
    split; [|split; [lia|]].
    + split; simpl; [|exact Hw]. intros k' d' Hin. apply (Hs k' d').
      rewrite El. apply in_app_or in Hin. apply in_or_app.
      destruct Hin; [left|right; right]; assumption.
    + intro Hne. assert (Hji : (id d =? i) = false).
      { apply Z.eqb_neq. intro Hdi. apply Hne. congruence. }
      rewrite Hji in Esum. lia.
  - split; [split; assumption|]. split; [|intros _];
      rewrite (fire_count_same s (fst (step OShutdown s))) by reflexivity;
      unfold remaining; simpl; lia.
  - destruct (countdown_worker now s (conj Hs Hw)) as [Hc E].
    split; [exact Hc|]. simpl. split; [lia|intros _; exact E].
Qed.

Lemma countdown_run ops s :
  WF s -> fits s ops -> i < next_id s -> counted i s ->
  counted i (run ops s) /\
  fire_count i (run ops s) + remaining i (run ops s) <=
    fire_count i s + remaining i s /\
  (~ In (OCancel i) ops ->
   fire_count i (run ops s) + remaining i (run ops s) =
   fire_count i s + remaining i s).
Proof.
  revert s. induction ops as [|o ops IH]; simpl; intros s Hwf Hf Hlt Hc.
  - split; [exact Hc|]. split; [lia|reflexivity].
  - destruct (fits_cons _ _ _ Hwf Hf) as [Hb Hf'].
    destruct (countdown_step o s Hlt Hc) as (Hc' & Hle & Heq).
    assert (Hlt' : i < next_id (fst (step o s))).
    { rewrite next_id_step; [|apply (wf_next _ Hwf)|exact Hb].
      destruct (is_schedule o); lia. }
    destruct (IH _ (WF_step o s Hwf Hb) Hf' Hlt' Hc') as (Hc'' & Hle' & Heq').
    split; [exact Hc''|]. split; [lia|].
    intro Hn. rewrite Heq', Heq; [reflexivity| |].
    + intro E. apply Hn. left. exact E.
    + intro Hin. apply Hn. right. exact Hin.
Qed.

Lemma stored_firings_absent l : ~ In i (ids l) -> stored_firings i l = 0.
Proof.
  induction l as [|[k d] r IH]; simpl; intro H; [reflexivity|].
  destruct (id d =? i) eqn:E.
  - apply Z.eqb_eq in E. exfalso. apply H. left. exact E.
  - rewrite IH; [reflexivity|]. intro Hin. apply H. right. exact Hin.
Qed.

Lemma held_firings_absent w : ~ In i (in_hand w) -> held_firings i w = 0.
Proof.
  destruct w as [|k d|k d|]; simpl; intro H; try reflexivity;
    (destruct (id d =? i) eqn:E; [|reflexivity]);
    apply Z.eqb_eq in E; exfalso; apply H; left; exact E.
Qed.

End Countdown.

Lemma countdown_start now delay cb rep s :
  WF s -> 0 <= rep ->
  let s1 := fst (schedule now delay cb rep s) in
  counted (next_id s) s1 /\
  fire_count (next_id s) s1 + remaining (next_id s) s1 = rep + 1.
Proof.
  intros Hwf Hrep s1.
  pose proof (wf_store _ Hwf) as Hst. pose proof (wf_hand _ Hwf) as Hh.
  rewrite Forall_forall in Hst, Hh.
  assert (Hns : ~ In (next_id s) (ids (timers s))).
  { intro Hin. specialize (Hst _ Hin). lia. }
  assert (Hnh : ~ In (next_id s) (in_hand (worker s))).
  { intro Hin. specialize (Hh _ Hin). lia. }
  split.
  - split; simpl.
    + intros k d Hin Hid. apply emplace_in in Hin. destruct Hin as [E|Hin].
      * inversion E; subst k d. exact Hrep.
      * exfalso. apply Hns. rewrite <- Hid. eapply in_ids_entry, Hin.
    + intros k d Ew Hid. exfalso. apply Hnh. rewrite Ew. left. exact Hid.
  - unfold fire_count, s1.
    rewrite (due_times_same _ s (fst (schedule now delay cb rep s))) by reflexivity.
    rewrite (due_times_fresh _ _ (wf_fired _ Hwf)).
    unfold remaining. simpl timers. simpl worker.
    rewrite stored_firings_emplace, (stored_firings_absent _ _ Hns),
      (held_firings_absent _ _ Hnh).
    simpl. rewrite Z.eqb_refl. lia.
Qed.

(** ** The worker left alone with one timer *)

Section Alone.

Lemma worker_erase now s k d rest :
  worker s = AtLoopHead -> running s = true -> timers s = (k, d) :: rest ->
  k <= now ->
  worker_ now s = mkState rest true (next_id s) (Erased k d) (fired s).
Proof.
  intros Ew Hr Et Hk. unfold worker_. rewrite Ew, Hr, Et. simpl.
  apply Z.leb_le in Hk. rewrite Hk. reflexivity.
Qed.

Lemma worker_single_shot now s k d :
  worker s = Erased k d -> repeat d = 0 ->
  worker_ now s = set_worker (Calling k d) s.
Proof. intros Ew Hr. unfold worker_. rewrite Ew, Hr. reflexivity. Qed.

Lemma worker_restart_counted now s k d :
  worker s = Erased k d -> 0 < repeat d ->
  worker_ now s =
  mkState (emplace (k + to_ticks (period d)) (decrement d) (timers s))
          (running s) (next_id s) (Calling k (decrement d)) (fired s).
Proof.
  intros Ew Hr. unfold worker_. rewrite Ew.
  assert (E0 : (repeat d =? 0) = false) by (apply Z.eqb_neq; lia).
  assert (E1 : (0 <? repeat d) = true) by (apply Z.ltb_lt; exact Hr).
  rewrite E0, E1. reflexivity.
Qed.

Lemma worker_call now s k d :
  worker s = Calling k d ->
  worker_ now s =
  mkState (timers s) (running s) (next_id s) AtLoopHead
          (fired s ++ [mkFired (id d) k (callback d)]).
Proof. intro Ew. unfold worker_. rewrite Ew. reflexivity. Qed.

Lemma worker_idle now s :
  worker s = AtLoopHead -> running s = true -> timers s = [] ->
  worker_ now s = s.
Proof. intros Ew Hr Et. unfold worker_. rewrite Ew, Hr, Et. reflexivity. Qed.

Lemma run_idle nows s :
  worker s = AtLoopHead -> running s = true -> timers s = [] ->
  run (map OWorker nows) s = s.
Proof.
  intros Ew Hr Et. induction nows as [|now nows IH]; simpl; [reflexivity|].
  rewrite worker_idle by assumption. exact IH.
Qed.

Lemma to_ticks_nonneg p : 0 <= p -> 0 <= to_ticks p.
Proof. unfold to_ticks, ticks_per_ms. lia. Qed.

Lemma worker_fires_first i T s k d rest :
  worker s = AtLoopHead -> running s = true -> timers s = (k, d) :: rest ->
  id d = i -> k <= T ->
  fire_count i (run [OWorker T; OWorker T; OWorker T] s) = fire_count i s + 1.
Proof.
  intros Ew Hr Et Hid Hk. simpl.
  rewrite (worker_erase T s k d rest) by assumption.
  set (s1 := mkState rest true (next_id s) (Erased k d) (fired s)).
  assert (H2 : exists d' l, id d' = i /\
            worker_ T s1 = mkState l true (next_id s) (Calling k d') (fired s)).
  { unfold worker_, s1. simpl. destruct (repeat d =? 0); simpl.
    - exists d, rest. auto.
    - destruct (0 <? repeat d); eexists; eexists; (split; [|reflexivity]); exact Hid. }
  destruct H2 as (d' & l & Hid' & ->).
  set (s3 := worker_ T (mkState l true (next_id s) (Calling k d') (fired s))).
  unfold fire_count.
  rewrite (due_times_snoc i s s3 (mkFired (id d') k (callback d')) eq_refl).
  rewrite length_app. simpl f_id. rewrite Hid', Z.eqb_refl. simpl length. lia.
Qed.

Lemma map_seq_S {A} (f : nat -> A) n :
  map f (seq 0 (S n)) = f 0%nat :: map (fun j => f (S j)) (seq 0 n).
Proof. simpl. f_equal. rewrite <- seq_shift, map_map. reflexivity. Qed.

Lemma alone_fires (T : TimePoint) (n : nat) :
  forall k d s,
    timers s = [(k, d)] -> running s = true -> worker s = AtLoopHead ->
    repeat d = Z.of_nat n -> 0 <= period d ->
    k + Z.of_nat n * to_ticks (period d) <= T ->
    run (List.repeat (OWorker T) (3 * S n)) s =
    mkState [] true (next_id s) AtLoopHead
      (fired s ++
       map (fun j => mkFired (id d) (k + Z.of_nat j * to_ticks (period d))
                             (callback d))
           (seq 0 (S n))).
Proof.
  induction n as [|m IH]; intros k d s Et Hr Ew Hrep Hp HT;
    pose proof (to_ticks_nonneg _ Hp) as HP.
  - simpl.
    rewrite (worker_erase T s k d []) by (try assumption; lia).
    rewrite (worker_single_shot T
               (mkState [] true (next_id s) (Erased k d) (fired s)) k d)
      by (try reflexivity; exact Hrep).
    unfold set_worker. simpl.
    rewrite (worker_call T
               (mkState [] true (next_id s) (Calling k d) (fired s)) k d)
      by reflexivity.
    simpl. rewrite Z.add_0_r. reflexivity.
  - replace (3 * S (S m))%nat with (3 + 3 * S m)%nat by lia.
    rewrite repeat_app, run_app.
    assert (E3 : run (List.repeat (OWorker T) 3) s =
                 mkState [(k + to_ticks (period d), decrement d)] true (next_id s)
                         AtLoopHead (fired s ++ [mkFired (id d) k (callback d)])).
    { simpl.
      rewrite (worker_erase T s k d []) by (try assumption; nia).
      rewrite (worker_restart_counted T
                 (mkState [] true (next_id s) (Erased k d) (fired s)) k d)
        by (try reflexivity; lia).
      cbn [timers running next_id fired worker emplace].
      reflexivity. }
    rewrite E3.
    rewrite (IH (k + to_ticks (period d)) (decrement d)); try reflexivity.
    + cbn [next_id fired]. rewrite <- app_assoc. f_equal. f_equal.
      rewrite (map_seq_S _ (S m)). cbn [app]. f_equal.
      * f_equal. lia.
      * apply map_ext. intro j. cbn [id callback period decrement].
        f_equal. lia.
    + simpl. lia.
    + exact Hp.
    + simpl period. lia.
Qed.

End Alone.

(** ** The restart key *)

Lemma schedule_without_reuse now delay cb rep s :
  Dangling.schedule false now delay cb rep s = schedule now delay cb rep s.
Proof.
  unfold Dangling.schedule, schedule. destruct (worker s); reflexivity.
Qed.

Lemma run_without_reuse ops s : Dangling.run (map intact ops) s = run ops s.
Proof.
  revert s. induction ops as [|o ops IH]; intro s; [reflexivity|].
  cbn [map Dangling.run run]. rewrite IH. f_equal.
  destruct o as [now delay cb rep|i| |now]; cbn [intact Dangling.step step];
    try reflexivity.
  rewrite schedule_without_reuse. reflexivity.
Qed.

Lemma restart_key s k d now :
  worker s = Erased k d -> repeat d <> 0 ->
  timers (worker_ now s) =
  emplace (k + to_ticks (period d)) (if 0 <? repeat d then decrement d else d)
          (timers s).
Proof.
  intros Ew Hr. unfold worker_. rewrite Ew.
  apply Z.eqb_neq in Hr. rewrite Hr. simpl.
  destruct (0 <? repeat d); reflexivity.
Qed.

(** C2. The restart key is [it->first + data.period] with [it->first] read
    after the erase (line 155).  When the worker goes from the erase to the
    restart with no [schedule] in between, the entry is put back under the
    deadline it had plus its period, whatever the clock readings.  When a
    [schedule] gets the lock in between and its node takes the place of the
    erased one, the entry is put back under the deadline of that other
    timer plus the period: in [reused_node_run] timer 1, stored under
    100000000 with period 100 ms, is put back under 600000000, not under
    200000000. *)
Theorem C2_restart_key_read_after_erase :
  (forall s k d rest now now',
     worker s = AtLoopHead -> running s = true ->
     timers s = (k, d) :: rest -> k <= now -> repeat d <> 0 ->
     clock_range (k + to_ticks (period d)) ->
     timers (worker_ now' (worker_ now s)) =
     emplace (k + to_ticks (period d))
             (if 0 <? repeat d then decrement d else d) rest) /\
  (forall s k d rest now now' t delay cb rep,
     worker s = AtLoopHead -> running s = true ->
     timers s = (k, d) :: rest -> k <= now -> repeat d <> 0 ->
     timers (worker_ now'
               (fst (Dangling.schedule true t delay cb rep (worker_ now s)))) =
     emplace (t + to_ticks delay + to_ticks (period d))
             (if 0 <? repeat d then decrement d else d)
             (emplace (t + to_ticks delay)
                      (mkTimerData (next_id s) cb rep delay) rest)) /\
  timers (Dangling.run reused_node_run init) =
    [(500000000, mkTimerData 2 (mkClosure 1 7) 0 500);
     (600000000, mkTimerData 1 (mkClosure 0 42) 1 100)] /\
  fired_ids (Dangling.run reused_node_run init) = [1] /\
  100000000 + to_ticks 100 = 200000000.
Proof.
  split; [|split; [|split; [|split]]].
  - intros s k d rest now now' Ew Hr Et Hk Hrep _.
    rewrite (worker_erase now s k d rest Ew Hr Et Hk).
    rewrite (restart_key _ k d now') by (try reflexivity; exact Hrep).
    reflexivity.
  - intros s k d rest now now' t delay cb rep Ew Hr Et Hk Hrep.
    rewrite (worker_erase now s k d rest Ew Hr Et Hk).
    rewrite (restart_key _ (t + to_ticks delay) d now')
      by (try reflexivity; exact Hrep).
    reflexivity.
  - reflexivity.
  - reflexivity.
  - reflexivity.
Qed.

(** C10. The period of a restarted entry is the [delay] passed to
    [schedule], but the deadline it is added to is read from the erased
    node (line 155), so the firings are due at the clock reading of the
    call plus multiples of [delay] only while that node keeps its key.  In
    [reused_node_run] timer 1 is scheduled at clock reading 0 with delay
    100 ms and two repetitions; after its first firing its entry, still
    with period 100 ms, is stored under 600000000, where the second firing
    was to be due at 0 + 2 * 100 ms = 200000000, and the worker does not
    fire it at any clock reading before 500000000. *)
Theorem C10_cadence_lost_when_erased_node_is_reused :
  fired_ids (Dangling.run reused_node_run init) = [1] /\
  timers (Dangling.run reused_node_run init) =
    [(500000000, mkTimerData 2 (mkClosure 1 7) 0 500);
     (600000000, mkTimerData 1 (mkClosure 0 42) 1 100)] /\
  (forall k d, In (k, d) (timers (Dangling.run reused_node_run init)) ->
               id d = 1 -> period d = 100 /\ k = 600000000) /\
  0 + to_ticks ((1 + 1) * 100) = 200000000 /\
  (forall now, now < 500000000 ->
     worker_ now (Dangling.run reused_node_run init) =
     Dangling.run reused_node_run init) /\
  (forall now, 600000000 <= now ->
     fired_ids (run [OWorker now; OWorker now; OWorker now;
                     OWorker now; OWorker now; OWorker now]
                    (Dangling.run reused_node_run init)) = [1; 2; 1]).
Proof.
  assert (E0 : Dangling.run reused_node_run init =
    mkState [(500000000, mkTimerData 2 (mkClosure 1 7) 0 500);
             (600000000, mkTimerData 1 (mkClosure 0 42) 1 100)]
            true 3 AtLoopHead [mkFired 1 500000000 (mkClosure 0 42)])
    by (vm_compute; reflexivity).
  rewrite E0.
  split; [reflexivity|]. split; [reflexivity|]. split; [|split; [reflexivity|split]].
  - intros k d Hin Hid. cbn [timers In] in Hin.
    destruct Hin as [E|[E|[]]]; inversion E; subst k d; cbn [id] in Hid.
    + discriminate Hid.
    + split; reflexivity.
  - intros now Hnow. unfold worker_. cbn [worker running negb timers].
    assert (E : (500000000 <=? now) = false) by (apply Z.leb_gt; exact Hnow).
    rewrite E. reflexivity.
  - intros now Hnow.
    change [OWorker now; OWorker now; OWorker now;
            OWorker now; OWorker now; OWorker now]
      with ([OWorker now; OWorker now; OWorker now] ++
            [OWorker now; OWorker now; OWorker now]).
    rewrite run_app.
    assert (E3 : run [OWorker now; OWorker now; OWorker now]
                   (mkState [(500000000, mkTimerData 2 (mkClosure 1 7) 0 500);
                             (600000000, mkTimerData 1 (mkClosure 0 42) 1 100)]
                            true 3 AtLoopHead
                            [mkFired 1 500000000 (mkClosure 0 42)]) =
                 mkState [(600000000, mkTimerData 1 (mkClosure 0 42) 1 100)]
                         true 3 AtLoopHead
                         [mkFired 1 500000000 (mkClosure 0 42);
                          mkFired 2 500000000 (mkClosure 1 7)]).
    { cbn [run step fst].
      rewrite (worker_erase now
                 (mkState [(500000000, mkTimerData 2 (mkClosure 1 7) 0 500);
                           (600000000, mkTimerData 1 (mkClosure 0 42) 1 100)]
                          true 3 AtLoopHead
                          [mkFired 1 500000000 (mkClosure 0 42)])
                 500000000 (mkTimerData 2 (mkClosure 1 7) 0 500)
                 [(600000000, mkTimerData 1 (mkClosure 0 42) 1 100)])
        by (try reflexivity; lia).
      reflexivity. }
    rewrite E3. cbn [run step fst].
    rewrite (worker_erase now
               (mkState [(600000000, mkTimerData 1 (mkClosure 0 42) 1 100)]
                        true 3 AtLoopHead
                        [mkFired 1 500000000 (mkClosure 0 42);
                         mkFired 2 500000000 (mkClosure 1 7)])
               600000000 (mkTimerData 1 (mkClosure 0 42) 1 100) [])
      by (try reflexivity; exact Hnow).
    reflexivity.
Qed.

Lemma fire_count_grows i ops s : fire_count i s <= fire_count i (run ops s).
Proof.
  unfold fire_count, due_times. destruct (fired_run_grows ops s) as [l ->].
  rewrite filter_app, map_app, length_app. lia.
Qed.

(** C1. A timer scheduled with [repeat] N > 0 fires N + 1 times in all.
    Whatever calls are interleaved, its callback is never run more than
    N + 1 times, so once the count is reached it is never run again.  As
    long as the timer is not cancelled, the firings made and the firings
    still carried by its entry add up to N + 1: the count is decreased at
    each restart, the entry that fires with count 0 is not put back, and
    the callback has run exactly N + 1 times when the timer has left the
    service.  Whenever its entry is the first of the multimap and due, the
    next three worker turns fire it.  Left alone with the worker and a
    clock past the last deadline, the timer does fire its N + 1 times, and
    no worker turn after that fires it again. *)
Theorem C1_counted_timer_fires_N_plus_1_times
    (pre : list Op) (now : TimePoint) (delay : milliseconds) (cb : Closure)
    (N : Z) (post : list Op) :
  0 < N ->
  fits init (pre ++ OSchedule now delay cb N :: post) ->
  let s := run pre init in
  let i := next_id s in
  let sf := run (pre ++ OSchedule now delay cb N :: post) init in
  fire_count i sf <= N + 1 /\
  (forall post',
     fits init (pre ++ OSchedule now delay cb N :: post ++ post') ->
     fire_count i sf = N + 1 -> fire_count i (run post' sf) = N + 1) /\
  (~ In (OCancel i) post ->
     fire_count i sf + remaining i sf = N + 1 /\
     0 <= remaining i sf /\
     (fire_count i sf = N + 1 <->
      ~ In i (ids (timers sf)) /\ ~ In i (in_hand (worker sf)))) /\
  (forall k d now',
     worker sf = Erased k d -> id d = i ->
     0 <= repeat d /\
     (repeat d = 0 -> timers (worker_ now' sf) = timers sf) /\
     (repeat d <> 0 ->
      timers (worker_ now' sf) =
      emplace (k + to_ticks (period d)) (decrement d) (timers sf))) /\
  (forall k d rest T,
     worker sf = AtLoopHead -> running sf = true ->
     timers sf = (k, d) :: rest -> id d = i -> k <= T ->
     fire_count i (run [OWorker T; OWorker T; OWorker T] sf) =
     fire_count i sf + 1) /\
  (timers s = [] -> worker s = AtLoopHead -> running s = true ->
   0 <= delay ->
   forall T nows, now + to_ticks ((N + 1) * delay) <= T ->
     let s1 := run (List.repeat (OWorker T) (3 * S (Z.to_nat N)))
                   (fst (schedule now delay cb N s)) in
     fire_count i s1 = N + 1 /\ timers s1 = [] /\
     fire_count i (run (map OWorker nows) s1) = N + 1).
Proof.
  intros HN Hf s i sf.
  destruct (fits_app _ _ _ WF_init Hf) as [Hfpre Hfrest].
  pose proof (WF_reach _ Hfpre) as Hwf. fold s in Hwf, Hfrest.
  destruct (fits_cons _ _ _ Hwf Hfrest) as [Hb Hfpost].
  specialize (Hb eq_refl).
  set (s1 := fst (schedule now delay cb N s)) in *.
  assert (Hwf1 : WF s1) by (apply WF_schedule; assumption).
  assert (Hlt1 : i < next_id s1).
  { unfold s1. rewrite next_id_schedule; [unfold i; lia|apply (wf_next _ Hwf)|exact Hb]. }
  destruct (countdown_start now delay cb N s Hwf) as [Hc1 Hsum1]; [lia|].
  fold s1 i in Hc1, Hsum1.
  assert (Esf : sf = run post s1).
  { unfold sf. rewrite run_app. reflexivity. }
  assert (Hbound : forall ops, fits s1 ops ->
            counted i (run ops s1) /\
            fire_count i (run ops s1) <= N + 1 /\
            (~ In (OCancel i) ops ->
             fire_count i (run ops s1) + remaining i (run ops s1) = N + 1 /\
             0 <= remaining i (run ops s1))).
  { intros ops Hfo.
    destruct (countdown_run i ops s1 Hwf1 Hfo Hlt1 Hc1) as (Hc & Hle & Heq).
    pose proof Hc as [Hcs Hcw].
    pose proof (stored_firings_nonneg i _ Hcs) as H1.
    pose proof (held_firings_nonneg i _ Hcw) as H2.
    assert (Hrem : 0 <= remaining i (run ops s1)) by (unfold remaining; lia).
    split; [exact Hc|]. split; [lia|].
    intro Hn. specialize (Heq Hn). split; [lia|exact Hrem]. }
  split; [|split; [|split; [|split; [|split]]]].
  - rewrite Esf. apply (Hbound post Hfpost).
  - intros post' Hf' Hcount.
    assert (Hfpp : fits s1 (post ++ post')).
    { destruct (fits_app _ _ _ WF_init Hf') as [_ Hfr]. fold s in Hfr.
      apply (fits_cons _ _ _ Hwf Hfr). }
    pose proof (Hbound (post ++ post') Hfpp) as (_ & Hle & _).
    rewrite run_app, <- Esf in Hle.
    pose proof (fire_count_grows i post' sf). lia.
  - intro Hn. rewrite Esf.
    destruct (Hbound post Hfpost) as (Hc & _ & Heq). destruct (Heq Hn) as [Hsum Hrem].
    split; [exact Hsum|]. split; [exact Hrem|].
    destruct Hc as [Hcs Hcw].
    pose proof (stored_firings_nonneg i _ Hcs) as H1.
    pose proof (held_firings_nonneg i _ Hcw) as H2.
    pose proof (stored_firings_zero i _ Hcs) as Z1.
    pose proof (held_firings_zero i _ Hcw) as Z2.
    unfold remaining in *. rewrite <- Z1, <- Z2. lia.
  - intros k d now' Ew Hid.
    destruct (Hbound post Hfpost) as ((_ & Hcw) & _). rewrite <- Esf in Hcw.
    pose proof (Hcw k d Ew Hid) as Hrep. split; [exact Hrep|]. split.
    + intro E. unfold worker_. rewrite Ew, E. reflexivity.
    + intro E. unfold worker_. rewrite Ew.
      assert (E0 : (repeat d =? 0) = false) by (apply Z.eqb_neq; exact E).
      assert (E1 : (0 <? repeat d) = true) by (apply Z.ltb_lt; lia).
      rewrite E0, E1. reflexivity.
  - intros k d rest T Ew Hr Et Hid Hk.
    apply (worker_fires_first i T sf k d rest Ew Hr Et Hid Hk).
  - intros Et Ew Hr Hd T nows HT s2.
    assert (E2 : s2 = mkState [] true (next_id s1) AtLoopHead
              (fired s1 ++
               map (fun j => mkFired i (now + to_ticks delay + Z.of_nat j * to_ticks delay) cb)
                   (seq 0 (S (Z.to_nat N))))).
    { unfold s2.
      apply (alone_fires T (Z.to_nat N) (now + to_ticks delay)
               (mkTimerData i cb N delay) s1).
      - unfold s1. simpl. rewrite Et. reflexivity.
      - exact Hr.
      - exact Ew.
      - simpl. lia.
      - exact Hd.
      - simpl period. rewrite Z2Nat.id by lia. unfold to_ticks in *. lia. }
    assert (Hfw : forall m, fits s1 (List.repeat (OWorker T) m)).
    { intro m. unfold fits, schedule_calls.
      replace (filter is_schedule (List.repeat (OWorker T) m)) with (@nil Op).
      - cbn [length Z.of_nat]. pose proof (wf_next _ Hwf1). lia.
      - induction m; simpl; auto. }
    destruct (Hbound _ (Hfw (3 * S (Z.to_nat N))%nat)) as (_ & _ & Heq).
    assert (Hn : ~ In (OCancel i) (List.repeat (OWorker T) (3 * S (Z.to_nat N)))).
    { intro Hin. apply repeat_spec in Hin. discriminate. }
    destruct (Heq Hn) as [Hsum _]. fold s2 in Hsum.
    assert (Hrem0 : remaining i s2 = 0) by (rewrite E2; reflexivity).
    assert (Hcount : fire_count i s2 = N + 1) by lia.
    split; [exact Hcount|]. split; [rewrite E2; reflexivity|].
    rewrite run_idle; [exact Hcount| | |]; rewrite E2; reflexivity.
Qed.

Lemma C1_witness :
  0 < 2 /\ fits init ([] ++ two_repetitions) /\
  fire_count 1 (run two_repetitions init) <= 2 + 1.
Proof.
  assert (H : fits init ([] ++ two_repetitions))
    by (unfold fits, uint64_modulus; simpl; lia).
  split; [lia|]. split; [exact H|].
  refine (proj1 (C1_counted_timer_fires_N_plus_1_times
            [] 0 100 (mkClosure 0 42) 2 (List.repeat (OWorker 300000000) 9) _ H)).
  lia.
Defined.

(** ** Order of the firings *)

Section Order.

Lemma sorted_snoc l x :
  StronglySorted Z.le l -> (forall y, In y l -> y <= x) ->
  StronglySorted Z.le (l ++ [x]).
Proof.
  induction l as [|a l IH]; simpl; intros Hs Hx.
  - constructor; constructor.
  - inversion Hs as [|? ? Hl Ha]; subst. constructor.
    + apply IH; [exact Hl|]. intros y Hy. apply Hx. right. exact Hy.
    + apply Forall_app. split; [exact Ha|].
      constructor; [apply Hx; left; reflexivity|constructor].
Qed.

Lemma sorted_step o s : sorted (timers s) -> sorted (timers (fst (step o s))).
Proof.
  intro Hs. destruct o as [now dl cb rep|j| |now]; simpl.
  - apply emplace_sorted, Hs.
  - unfold cancel. destruct (erase_id j (timers s)) as [l|] eqn:E; simpl; [|exact Hs].
    destruct (erase_id_some _ _ _ E) as (l1 & k & d & l2 & El & _ & _ & ->).
    rewrite El in Hs. eapply sorted_remove, Hs.
  - exact Hs.
  - unfold worker_. destruct (worker s) as [|k d|k d|].
    + destruct (running s); simpl; [|exact Hs].
      destruct (timers s) as [|[k d] rest] eqn:Et; [rewrite Et; exact Hs|].
      destruct (k <=? now); simpl; [eapply sorted_tail, Hs|rewrite Et; exact Hs].
    + destruct (repeat d =? 0); simpl; [exact Hs|apply emplace_sorted, Hs].
    + exact Hs.
    + exact Hs.
Qed.

Lemma sorted_run ops s : sorted (timers s) -> sorted (timers (run ops s)).
Proof.
  revert s. induction ops as [|o ops IH]; simpl; intros s Hs; [exact Hs|].
  apply IH, sorted_step, Hs.
Qed.

Lemma in_order_cancel j s : in_order s -> in_order (fst (cancel j s)).
Proof.
  intros (Hs & Hp & Hd & Hb & Hw). unfold cancel.
  destruct (erase_id j (timers s)) as [l|] eqn:E; simpl;
    [|repeat split; assumption].
  destruct (erase_id_some _ _ _ E) as (l1 & k & d & l2 & El & _ & _ & ->).
  assert (Hsub : forall e, In e (l1 ++ l2) -> In e (timers s)).
  { intros e He. rewrite El. apply in_app_or in He. apply in_or_app.
    destruct He; [left|right; right]; assumption. }
  unfold in_order. simpl. split; [|split; [|split; [|split]]].
  - rewrite El in Hs. eapply sorted_remove, Hs.
  - intros e He. apply Hp, Hsub, He.
  - exact Hd.
  - intros y e Hy He. apply (Hb y e Hy), Hsub, He.
  - destruct (worker s) as [|k0 d0|k0 d0|]; [exact I| | |exact I].
    + destruct Hw as (H1 & H2 & H3). repeat split; auto.
    + destruct Hw as (H2 & H3). repeat split; auto.
Qed.

Lemma in_order_worker now s : in_order s -> in_order (worker_ now s).
Proof.
  intros Hin. pose proof Hin as (Hs & Hp & Hd & Hb & Hw). unfold worker_.
  destruct (worker s) as [|k d|k d|] eqn:Ew.
  - destruct (running s); simpl.
    + destruct (timers s) as [|[k d] rest] eqn:Et; [exact Hin|].
      destruct (k <=? now); [|exact Hin].
      unfold in_order. simpl. split; [|split; [|split; [|split]]].
      * eapply sorted_tail, Hs.
      * intros e He. apply Hp. right. exact He.
      * exact Hd.
      * intros y e Hy He. apply (Hb y e Hy). right. exact He.
      * split; [apply (Hp (k, d)); left; reflexivity|]. split.
        -- intros y Hy. apply (Hb y (k, d) Hy). left. reflexivity.
        -- pose proof (sorted_head_min _ _ Hs) as Hmin.
           rewrite Forall_forall in Hmin. exact Hmin.
    + unfold in_order. simpl. repeat split; assumption.
  - destruct Hw as (Hr & Hle & Hge).
    destruct (repeat d =? 0) eqn:Er; simpl.
    + unfold in_order. simpl. repeat split; assumption.
    + apply Z.eqb_neq in Er. specialize (Hr Er).
      pose proof (to_ticks_nonneg _ Hr) as HP.
      set (d' := if 0 <? repeat d then decrement d else d).
      assert (Ep : period d' = period d)
        by (unfold d'; destruct (0 <? repeat d); reflexivity).
      unfold in_order. simpl. rewrite Ep.
      split; [|split; [|split; [|split]]].
      * apply emplace_sorted, Hs.
      * intros e He. apply emplace_in in He. destruct He as [->|He]; [|apply Hp, He].
        simpl. intros _. rewrite Ep. exact Hr.
      * exact Hd.
      * intros y e Hy He. apply emplace_in in He. destruct He as [->|He].
        -- simpl. specialize (Hle y Hy). lia.
        -- apply (Hb y e Hy He).
      * split; [exact Hle|]. intros e He. apply emplace_in in He.
        destruct He as [->|He]; [simpl; lia|apply Hge, He].
  - destruct Hw as (Hle & Hge).
    unfold in_order, dues. simpl. rewrite map_app. simpl.
    split; [exact Hs|]. split; [exact Hp|]. split; [|split; [|exact I]].
    + apply sorted_snoc; assumption.
    + intros y e Hy He. apply in_app_or in Hy. destruct Hy as [Hy|[<-|[]]].
      * apply (Hb y e Hy He).
      * apply Hge, He.
  - exact Hin.
Qed.

Lemma in_order_step o s :
  is_schedule o = false -> in_order s -> in_order (fst (step o s)).
Proof.
  intros Ho Hin. destruct o as [now dl cb rep|j| |now]; [discriminate| | |].
  - assert (E : fst (step (OCancel j) s) = fst (cancel j s))
      by (unfold step; destruct (cancel j s); reflexivity).
    rewrite E. apply in_order_cancel, Hin.
  - exact Hin.
  - apply in_order_worker, Hin.
Qed.

Lemma in_order_run ops s :
  Forall (fun o => is_schedule o = false) ops -> in_order s ->
  in_order (run ops s).
Proof.
  revert s. induction ops as [|o ops IH]; simpl; intros s Ho Hin; [exact Hin|].
  inversion Ho; subst. apply IH; [assumption|]. apply in_order_step; assumption.
Qed.

Lemma in_order_schedules scheds s :
  Forall sound_schedule scheds ->
  worker s = AtLoopHead -> fired s = [] -> in_order s ->
  worker (run scheds s) = AtLoopHead /\ fired (run scheds s) = [] /\
  in_order (run scheds s).
Proof.
  revert s. induction scheds as [|o ops IH]; simpl; intros s Ho Ew Ef Hin; [auto|].
  inversion Ho as [|? ? Hso Hrest]; subst.
  destruct o as [now dl cb rep|j| |now]; simpl in Hso; try contradiction.
  apply IH; try assumption.
  destruct Hin as (Hs & Hp & _).
  unfold in_order, dues. simpl. rewrite Ew, Ef. simpl.
  split; [apply emplace_sorted, Hs|]. split; [|split; [constructor|split; [|exact I]]].
  - intros e He. apply emplace_in in He. destruct He as [->|He]; [|apply Hp, He].
    unfold restartable. simpl. intro Hne. destruct Hso; [contradiction|assumption].
  - intros y e [].
Qed.

Lemma in_order_init : in_order init.
Proof.
  unfold in_order, init, dues. simpl.
  split; [constructor|]. split; [intros e []|]. split; [constructor|].
  split; [intros y e []|exact I].
Qed.

Lemma in_order_timely_step c o s :
  timely c [o] -> in_order s -> taken_by c s ->
  exists c', c <= c' /\ (forall r, timely c (o :: r) -> timely c' r) /\
             in_order (fst (step o s)) /\ taken_by c' (fst (step o s)).
Proof.
  intros Ht Hin [Hdu Hha].
  destruct o as [now dl cb rep|j| |now]; simpl in Ht.
  - destruct Ht as (Hc & Hdl & _). exists now.
    split; [exact Hc|]. split; [simpl; tauto|].
    pose proof (to_ticks_nonneg _ Hdl) as HP.
    destruct Hin as (Hs & Hp & Hd & Hb & Hw). split.
    + unfold in_order. simpl. split; [apply emplace_sorted, Hs|].
      split; [|split; [exact Hd|split]].
      * intros e He. apply emplace_in in He. destruct He as [->|He]; [|apply Hp, He].
        unfold restartable. simpl. intros _. exact Hdl.
      * intros y e Hy He. apply emplace_in in He. destruct He as [->|He].
        -- simpl. specialize (Hdu y Hy). lia.
        -- apply (Hb y e Hy He).
      * destruct (worker s) as [|k d|k d|]; [exact I| | |exact I].
        -- destruct Hw as (H1 & H2 & H3). split; [exact H1|]. split; [exact H2|].
           intros e He. apply emplace_in in He.
           destruct He as [->|He]; [simpl; lia|apply H3, He].
        -- destruct Hw as (H2 & H3). split; [exact H2|].
           intros e He. apply emplace_in in He.
           destruct He as [->|He]; [simpl; lia|apply H3, He].
    + split; simpl.
      * intros y Hy. specialize (Hdu y Hy). lia.
      * destruct (worker s); try exact I; lia.
  - exists c. split; [lia|]. split; [simpl; tauto|].
    assert (E : fst (step (OCancel j) s) = fst (cancel j s))
      by (unfold step; destruct (cancel j s); reflexivity).
    rewrite E. split; [apply in_order_cancel, Hin|].
    unfold cancel. destruct (erase_id j (timers s)); simpl; split; assumption.
  - exists c. split; [lia|]. split; [simpl; tauto|]. split; [exact Hin|].
    split; assumption.
  - destruct Ht as (Hc & _). exists now. split; [exact Hc|]. split; [simpl; tauto|].
    split; [apply in_order_worker, Hin|].
    simpl. unfold worker_, taken_by.
    destruct (worker s) as [|k d|k d|] eqn:Ew.
    + destruct (running s); simpl.
      * destruct (timers s) as [|[k d] rest] eqn:Et.
        { rewrite Ew. split; [intros y Hy; specialize (Hdu y Hy); lia|exact I]. }
        destruct (k <=? now) eqn:Ek.
        -- simpl. apply Z.leb_le in Ek.
           split; [intros y Hy; specialize (Hdu y Hy); lia|exact Ek].
        -- rewrite Ew. split; [intros y Hy; specialize (Hdu y Hy); lia|exact I].
      * split; [intros y Hy; specialize (Hdu y Hy); lia|exact I].
    + destruct (repeat d =? 0); simpl;
        (split; [intros y Hy; specialize (Hdu y Hy); lia|lia]).
    + unfold dues. simpl. rewrite map_app. simpl. split; [|exact I].
      intros y Hy. apply in_app_or in Hy. destruct Hy as [Hy|[<-|[]]]; [|lia].
      specialize (Hdu y Hy). lia.
    + rewrite Ew. split; [intros y Hy; specialize (Hdu y Hy); lia|exact I].
Qed.

Lemma in_order_timely_run c ops s :
  timely c ops -> in_order s -> taken_by c s -> in_order (run ops s).
Proof.
  revert c s. induction ops as [|o ops IH]; intros c s Ht Hin Htk; [exact Hin|].
  assert (Ht1 : timely c [o]).
  { destruct o; simpl in *; tauto. }
  destruct (in_order_timely_step c o s Ht1 Hin Htk) as (c' & _ & Hr & Hin' & Htk').
  simpl. apply (IH c' _ (Hr ops Ht) Hin' Htk').
Qed.

End Order.

(** C5. The worker runs the callbacks in the order of their deadlines.
    The entry it erases is the first of the multimap, whose deadline is the
    smallest one there.  For any sequence of [schedule] calls (a restarted
    timer having a delay that is not negative) followed by worker turns
    under any clock readings, cancels and shutdown, the deadlines of the
    callbacks run are non-decreasing; so they are when [schedule] calls
    come in between, provided the clock readings of the calls do not go
    back and no delay is negative. *)
Theorem C5_callbacks_in_deadline_order (scheds rest : list Op) :
  Forall sound_schedule scheds ->
  Forall (fun o => is_schedule o = false) rest ->
  StronglySorted Z.le (dues (run (scheds ++ rest) init)) /\
  (forall pre now k d,
     worker (run pre init) = AtLoopHead ->
     worker (worker_ now (run pre init)) = Erased k d ->
     timers (run pre init) = (k, d) :: timers (worker_ now (run pre init)) /\
     Forall (fun e => k <= fst e) (timers (run pre init)) /\
     k <= now) /\
  (forall c ops, timely c ops -> StronglySorted Z.le (dues (run ops init))).
Proof.
  intros Hs Hr. split; [|split].
  - rewrite run_app.
    destruct (in_order_schedules scheds init Hs eq_refl eq_refl in_order_init)
      as (_ & _ & Hin).
    destruct (in_order_run rest _ Hr Hin) as (_ & _ & Hd & _). exact Hd.
  - intros pre now k d Ew Ew'.
    pose proof (sorted_run pre init) as Hso.
    assert (Hsorted : sorted (timers (run pre init))) by (apply Hso; constructor).
    clear Hso. revert Ew'. unfold worker_. rewrite Ew.
    destruct (running (run pre init)); simpl; [|discriminate].
    destruct (timers (run pre init)) as [|[k0 d0] r] eqn:Et.
    { rewrite Ew. discriminate. }
    destruct (k0 <=? now) eqn:Ek; simpl; [|rewrite Ew; discriminate].
    intro E. inversion E; subst k0 d0. apply Z.leb_le in Ek.
    split; [reflexivity|]. split; [|exact Ek].
    constructor; [simpl; lia|]. apply (sorted_head_min _ _ Hsorted).
  - intros c ops Ht.
    assert (Htk : taken_by c init) by (split; [intros y []|exact I]).
    destruct (in_order_timely_run c ops init Ht in_order_init Htk)
      as (_ & _ & Hd & _).
    exact Hd.
Qed.

Lemma C5_witness :
  StronglySorted Z.le (dues (run three_timers init)).
Proof.
  refine (proj1 (C5_callbacks_in_deadline_order
            [OSchedule 0 300 (mkClosure 0 1) 0; OSchedule 0 100 (mkClosure 1 2) 1;
             OSchedule 50000000 50 (mkClosure 2 3) 0]
            (List.repeat (OWorker 400000000) 12) _ _)).
  - repeat constructor; simpl; lia.
  - repeat constructor.
Defined.

(** ** Entries with the same deadline *)

Section Ties.

Variables a b : TimerId.

Lemma precedes_fresh l : ~ In b l -> precedes a b l.
Proof.
  induction l as [|x r IH]; simpl; intro H; [exact I|].
  right. split; [intro E; apply H; left; exact E|].
  apply IH. intro Hin. apply H. right. exact Hin.
Qed.

Lemma precedes_snoc l x :
  precedes a b l -> x <> b \/ In a l -> precedes a b (l ++ [x]).
Proof.
  induction l as [|y r IH]; simpl; intros Hp Hx.
  - destruct Hx as [Hx|[]]. right. split; [exact Hx|exact I].
  - destruct Hp as [Hy|[Hy Hp]]; [left; exact Hy|].
    destruct (Z.eq_dec y a) as [E|E]; [left; exact E|].
    right. split; [exact Hy|]. apply IH; [exact Hp|].
    destruct Hx as [Hx|[Hx|Hx]]; [left; exact Hx|contradiction|right; exact Hx].
Qed.

Lemma precedes_spec l :
  a <> b -> precedes a b l ->
  forall l1 l2, l = l1 ++ b :: l2 -> In a l1.
Proof.
  intro Hab. induction l as [|x r IH]; simpl; intros Hp l1 l2 E.
  - destruct l1; discriminate.
  - destruct l1 as [|y l1]; simpl in E; inversion E; subst.
    + destruct Hp as [Hp|[Hp _]]; [exfalso; apply Hab; symmetry; exact Hp|contradiction].
    + destruct Hp as [Hp|[_ Hp]]; [left; exact Hp|].
      right. apply (IH Hp l1 l2 eq_refl).
Qed.

Lemma first_of_emplace k v l :
  first_of a b l -> id v <> b -> first_of a b (emplace k v l).
Proof.
  induction l as [|[k' v'] r IH]; simpl; intros Hf Hv; [contradiction|].
  destruct (k <? k'); simpl.
  - right. split; [exact Hv|exact Hf].
  - destruct Hf as [Hf|[Hn Hf]]; [left; exact Hf|].
    right. split; [exact Hn|apply IH; assumption].
Qed.

Lemma first_of_erase j l l' :
  first_of a b l -> erase_id j l = Some l' -> j <> a -> first_of a b l'.
Proof.
  revert l'. induction l as [|[k d] r IH]; simpl; intros l' Hf E Hj; [contradiction|].
  destruct (id d =? j) eqn:Ej.
  - apply Z.eqb_eq in Ej. inversion E; subst l'.
    destruct Hf as [Hf|[_ Hf]]; [exfalso; apply Hj; congruence|exact Hf].
  - destruct (erase_id j r) as [r'|]; [|discriminate]. inversion E; subst l'.
    simpl. destruct Hf as [Hf|[Hn Hf]]; [left; exact Hf|].
    right. split; [exact Hn|apply (IH r' Hf eq_refl Hj)].
Qed.

Lemma first_of_emplace_later k v l k0 d0 :
  sorted l -> In (k0, d0) l -> id d0 = a -> k0 <= k -> ~ In b (ids l) ->
  first_of a b (emplace k v l).
Proof.
  induction l as [|[k' v'] r IH]; simpl; intros Hs Hin Hid Hk Hb; [contradiction|].
  pose proof (sorted_head_min _ _ Hs) as Hmin. rewrite Forall_forall in Hmin.
  destruct (k <? k') eqn:E.
  - apply Z.ltb_lt in E. exfalso. destruct Hin as [Hin|Hin].
    + inversion Hin; subst. lia.
    + specialize (Hmin _ Hin). simpl in Hmin. lia.
  - simpl. destruct Hin as [Hin|Hin].
    + inversion Hin; subst. left. reflexivity.
    + right. split; [intro Hv; apply Hb; left; exact Hv|].
      apply IH; try assumption.
      * eapply sorted_tail, Hs.
      * intro Hx. apply Hb. right. exact Hx.
Qed.

Lemma emplace_after k v l e :
  sorted l -> In e l -> fst e <= k ->
  exists l1 l2 l3, emplace k v l = l1 ++ e :: l2 ++ (k, v) :: l3.
Proof.
  induction l as [|[k' v'] r IH]; simpl; intros Hs Hin Hk; [contradiction|].
  pose proof (sorted_head_min _ _ Hs) as Hmin. rewrite Forall_forall in Hmin.
  destruct (k <? k') eqn:E.
  - apply Z.ltb_lt in E. exfalso. destruct Hin as [Hin|Hin].
    + subst e. simpl in Hk. lia.
    + specialize (Hmin _ Hin). simpl in Hmin. unfold TimePoint in *. lia.
  - destruct Hin as [Hin|Hin].
    + subst e.
      assert (Hnew : In (k, v) (emplace k v r)) by (apply emplace_in; left; reflexivity).
      apply in_split in Hnew. destruct Hnew as (l2 & l3 & ->).
      exists [], l2, l3. reflexivity.
    + destruct (IH (sorted_tail _ _ Hs) Hin Hk) as (l1 & l2 & l3 & ->).
      exists ((k', v') :: l1), l2, l3. reflexivity.
Qed.

Lemma erase_id_keeps j l l' e :
  erase_id j l = Some l' -> In e l -> id (snd e) <> j -> In e l'.
Proof.
  intros E Hin Hne.
  destruct (erase_id_some _ _ _ E) as (l1 & k & d & l2 & -> & Hid & _ & ->).
  apply in_app_or in Hin. apply in_or_app.
  destruct Hin as [Hin|[Hin|Hin]]; [left; exact Hin| |right; exact Hin].
  subst e. simpl in Hne. contradiction.
Qed.

Lemma fired_ids_step_grows o s x :
  In x (fired_ids s) -> In x (fired_ids (fst (step o s))).
Proof.
  unfold fired_ids. destruct (fired_step_grows o s) as [l ->].
  rewrite map_app. intro H. apply in_or_app. left. exact H.
Qed.

Lemma ahead_worker dl now s : ahead a dl s -> ahead a dl (worker_ now s).
Proof.
  intros Hah. pose proof Hah as [H|[H|H]].
  - left. apply (fired_ids_step_grows (OWorker now) s a H).
  - unfold worker_. destruct (worker s) as [|k d|k d|] eqn:Ew; simpl in H;
      try contradiction.
    + right. left. destruct (repeat d =? 0); simpl; [exact H|].
      destruct (0 <? repeat d); exact H.
    + left. unfold fired_ids. simpl. rewrite map_app. apply in_or_app.
      right. simpl. tauto.
  - destruct H as (d & Hin & Hid). unfold worker_.
    destruct (worker s) as [|k0 d0|k0 d0|] eqn:Ew.
    + destruct (running s); simpl.
      * destruct (timers s) as [|[k1 d1] rest] eqn:Et; [exact Hah|].
        destruct (k1 <=? now); [|exact Hah].
        destruct Hin as [Hin|Hin].
        -- inversion Hin; subst. right. left. left. reflexivity.
        -- right. right. exists d. auto.
      * right. right. exists d. auto.
    + right. right. exists d. destruct (repeat d0 =? 0); simpl; [auto|].
      split; [|auto]. apply emplace_in. right. exact Hin.
    + right. right. exists d. simpl. auto.
    + exact Hah.
Qed.

Lemma ahead_step dl o s :
  o <> OCancel a -> ahead a dl s -> ahead a dl (fst (step o s)).
Proof.
  intros Ho H. destruct o as [now dl' cb rep|j| |now].
  - destruct H as [H|[H|H]]; [left; exact H|right; left; exact H|].
    destruct H as (d & Hin & Hid). right. right. exists d.
    simpl. split; [apply emplace_in; right; exact Hin|auto].
  - assert (Hj : j <> a) by (intro E; apply Ho; rewrite E; reflexivity).
    unfold step, cancel. destruct (erase_id j (timers s)) as [l|] eqn:E; simpl;
      [|exact H].
    destruct H as [H|[H|H]]; [left; exact H|right; left; exact H|].
    destruct H as (d & Hin & Hid). right. right. exists d.
    simpl. split; [|auto].
    apply (erase_id_keeps j _ _ (dl, d) E Hin). simpl. congruence.
  - exact H.
  - apply ahead_worker, H.
Qed.

Lemma ahead_run dl ops s :
  ~ In (OCancel a) ops -> ahead a dl s -> ahead a dl (run ops s).
Proof.
  revert s. induction ops as [|o ops IH]; simpl; intros s Hn H; [exact H|].
  apply IH; [intro Hin; apply Hn; right; exact Hin|].
  apply ahead_step; [intro E; apply Hn; left; exact E|exact H].
Qed.

Lemma served_first_worker now s :
  a <> b -> served_first a b s -> served_first a b (worker_ now s).
Proof.
  intros Hab Hsf. pose proof Hsf as [Hp H]. unfold worker_.
  destruct (worker s) as [|k d|k d|] eqn:Ew.
  - destruct (running s); simpl.
    + destruct (timers s) as [|[k d] rest] eqn:Et; [exact Hsf|].
      destruct (k <=? now); [|exact Hsf].
      unfold served_first. simpl. split; [exact Hp|].
      destruct H as [H|[H|[H Hb]]]; [left; exact H|contradiction|].
      simpl in H. destruct H as [H|[Hn H]].
      * right. left. left. exact H.
      * right. right. split; [exact H|]. intros [E|[]]. contradiction.
    + unfold served_first. simpl. split; [exact Hp|].
      destruct H as [H|[H|[H Hb]]]; [left; exact H|contradiction|].
      right. right. split; [exact H|intros []].
  - assert (Eid : id (if 0 <? repeat d then decrement d else d) = id d)
      by (destruct (0 <? repeat d); reflexivity).
    destruct (repeat d =? 0); unfold served_first; simpl.
    + split; [exact Hp|exact H].
    + split; [exact Hp|]. rewrite Eid.
      destruct H as [H|[H|[H Hb]]]; [left; exact H|right; left; exact H|].
      right. right. split; [|exact Hb].
      apply first_of_emplace; [exact H|]. rewrite Eid.
      intro E. apply Hb. left. exact E.
  - unfold served_first, fired_ids. simpl. rewrite map_app. simpl.
    change (map f_id (fired s)) with (fired_ids s).
    destruct H as [H|[H|[H Hb]]].
    + split; [apply precedes_snoc; [exact Hp|right; exact H]|].
      left. apply in_or_app. left. exact H.
    + simpl in H. destruct H as [H|[]].
      split; [apply precedes_snoc; [exact Hp|left; congruence]|].
      left. apply in_or_app. right. left. exact H.
    + split; [apply precedes_snoc; [exact Hp|]|].
      * left. intro E. apply Hb. left. exact E.
      * right. right. split; [exact H|intros []].
  - exact Hsf.
Qed.

Lemma served_first_step o s :
  a <> b -> b < next_id s -> o <> OCancel a ->
  served_first a b s -> served_first a b (fst (step o s)).
Proof.
  intros Hab Hlt Ho [Hp H]. destruct o as [now dl cb rep|j| |now].
  - unfold served_first. simpl. split; [exact Hp|].
    destruct H as [H|[H|[H Hb]]]; [left; exact H|right; left; exact H|].
    right. right. split; [|exact Hb].
    apply first_of_emplace; [exact H|]. simpl. lia.
  - assert (Hj : j <> a) by (intro E; apply Ho; rewrite E; reflexivity).
    unfold step, cancel. destruct (erase_id j (timers s)) as [l|] eqn:E; simpl;
      [|split; assumption].
    unfold served_first. simpl. split; [exact Hp|].
    destruct H as [H|[H|[H Hb]]]; [left; exact H|right; left; exact H|].
    right. right. split; [|exact Hb]. apply (first_of_erase j _ _ H E Hj).
  - split; assumption.
  - apply served_first_worker; [exact Hab|split; assumption].
Qed.

Lemma served_first_run ops s :
  a <> b -> WF s -> fits s ops -> b < next_id s -> ~ In (OCancel a) ops ->
  served_first a b s -> served_first a b (run ops s).
Proof.
  intro Hab. revert s.
  induction ops as [|o ops IH]; simpl; intros s Hwf Hf Hlt Hn H; [exact H|].
  destruct (fits_cons _ _ _ Hwf Hf) as [Hb Hf'].
  apply IH.
  - apply WF_step; assumption.
  - exact Hf'.
  - rewrite next_id_step; [|apply (wf_next _ Hwf)|exact Hb].
    destruct (is_schedule o); lia.
  - intro Hin. apply Hn. right. exact Hin.
  - apply served_first_step; try assumption.
    intro E. apply Hn. left. exact E.
Qed.

End Ties.

(** C6. Two timers with the same deadline fire in the order of their
    [schedule] calls.  Let A be scheduled, then, after any calls, B for the
    same deadline, and let A not be cancelled.  At the moment B is stored,
    A has fired, or is being fired, or has its entry under that deadline in
    the multimap, and then B's entry is placed after it.  Whatever calls
    follow, before any run of B's callback there is a run of A's. *)
Theorem C6_equal_deadlines_fire_in_insertion_order
    (pre : list Op) (nowA : TimePoint) (delayA : milliseconds) (cbA : Closure)
    (repA : Z) (mid : list Op) (nowB : TimePoint) (delayB : milliseconds)
    (cbB : Closure) (repB : Z) (post : list Op) :
  fits init (pre ++ OSchedule nowA delayA cbA repA ::
             mid ++ OSchedule nowB delayB cbB repB :: post) ->
  nowA + to_ticks delayA = nowB + to_ticks delayB ->
  ~ In (OCancel (next_id (run pre init))) (mid ++ post) ->
  let a := next_id (run pre init) in
  let sB := run (pre ++ OSchedule nowA delayA cbA repA :: mid) init in
  let b := next_id sB in
  let sf := run (pre ++ OSchedule nowA delayA cbA repA ::
                 mid ++ OSchedule nowB delayB cbB repB :: post) init in
  snd (schedule nowA delayA cbA repA (run pre init)) = a /\
  snd (schedule nowB delayB cbB repB sB) = b /\
  a < b /\
  (In a (fired_ids sB) \/ In a (in_hand (worker sB)) \/
   exists dA l1 l2 l3,
     id dA = a /\
     timers (fst (schedule nowB delayB cbB repB sB)) =
     l1 ++ (nowA + to_ticks delayA, dA) ::
     l2 ++ (nowB + to_ticks delayB, mkTimerData b cbB repB delayB) :: l3) /\
  (forall l1 l2, fired_ids sf = l1 ++ b :: l2 -> In a l1).
Proof.
  intros Hf Hdl Hnc a sB b sf.
  set (opA := OSchedule nowA delayA cbA repA) in *.
  set (opB := OSchedule nowB delayB cbB repB) in *.
  set (dl := nowA + to_ticks delayA) in *.
  destruct (fits_app _ _ _ WF_init Hf) as [Hfpre Hf1].
  pose proof (WF_reach _ Hfpre) as Hwf0.
  destruct (fits_cons _ _ _ Hwf0 Hf1) as [HbA Hf2]. specialize (HbA eq_refl).
  set (sA := fst (step opA (run pre init))) in *.
  assert (HwfA : WF sA) by (apply WF_schedule; assumption).
  destruct (fits_app _ _ _ HwfA Hf2) as [Hfmid Hf3].
  assert (EsB : sB = run mid sA) by (unfold sB; rewrite run_app; reflexivity).
  rewrite <- EsB in Hf3.
  assert (HwfB : WF sB) by (rewrite EsB; apply WF_run; assumption).
  destruct (fits_cons _ _ _ HwfB Hf3) as [HbB Hfpost]. specialize (HbB eq_refl).
  set (sB' := fst (step opB sB)) in *.
  assert (HwfB' : WF sB') by (apply WF_schedule; assumption).
  assert (Hab : a < b).
  { unfold b. rewrite EsB, next_id_run by assumption.
    unfold sA. simpl next_id. rewrite Z.mod_small
      by (pose proof (wf_next _ Hwf0); fold a; lia).
    pose proof (schedule_calls_nonneg mid). fold a. lia. }
  assert (Hncm : ~ In (OCancel a) mid).
  { intro H. apply Hnc. apply in_or_app. left. exact H. }
  assert (Hncp : ~ In (OCancel a) post).
  { intro H. apply Hnc. apply in_or_app. right. exact H. }
  assert (HahA : ahead a dl sA).
  { right. right. exists (mkTimerData a cbA repA delayA).
    split; [|reflexivity]. unfold sA. simpl. apply emplace_in. left. reflexivity. }
  assert (HahB : ahead a dl sB) by (rewrite EsB; apply ahead_run; assumption).
  pose proof (wf_store _ HwfB) as Hst. pose proof (wf_hand _ HwfB) as Hh.
  pose proof (wf_fired _ HwfB) as Hfi. fold b in Hst, Hh, Hfi.
  rewrite Forall_forall in Hst, Hh, Hfi.
  assert (Hbs : ~ In b (ids (timers sB))) by (intro H; specialize (Hst _ H); lia).
  assert (Hbh : ~ In b (in_hand (worker sB))) by (intro H; specialize (Hh _ H); lia).
  assert (Hbf : ~ In b (fired_ids sB)) by (intro H; specialize (Hfi _ H); lia).
  split; [reflexivity|]. split; [reflexivity|]. split; [exact Hab|]. split.
  - destruct HahB as [H|[H|(dA & Hin & Hid)]]; [left; exact H|right; left; exact H|].
    right. right.
    destruct (emplace_after (nowB + to_ticks delayB)
                (mkTimerData b cbB repB delayB) (timers sB) (dl, dA)
                (wf_sorted _ HwfB) Hin) as (l1 & l2 & l3 & E).
    { simpl. unfold dl. lia. }
    exists dA, l1, l2, l3. split; [exact Hid|exact E].
  - assert (Hsf : served_first a b sB').
    { split; [apply precedes_fresh; exact Hbf|].
      destruct HahB as [H|[H|(dA & Hin & Hid)]]; [left; exact H|right; left; exact H|].
      right. right. split; [|exact Hbh].
      apply (first_of_emplace_later a b _ _ _ dl dA (wf_sorted _ HwfB) Hin Hid);
        [unfold dl; lia|exact Hbs]. }
    assert (Esf : sf = run post sB').
    { unfold sf. rewrite run_app.
      change (run (opA :: mid ++ opB :: post) (run pre init))
        with (run (mid ++ opB :: post) sA).
      rewrite run_app, <- EsB. reflexivity. }
    assert (Hlt : b < next_id sB').
    { unfold sB'. simpl next_id. rewrite Z.mod_small
        by (pose proof (wf_next _ HwfB); fold b; lia). fold b. lia. }
    assert (Hne : a <> b) by lia.
    pose proof (served_first_run a b post sB' Hne HwfB' Hfpost Hlt Hncp Hsf) as [Hp _].
    rewrite <- Esf in Hp. apply (precedes_spec a b _ Hne Hp).
Qed.

Lemma C6_witness :
  fits init ([OSchedule 0 300 (mkClosure 0 1) 0] ++
             OSchedule 0 100 (mkClosure 1 2) 1 ::
             [] ++ OSchedule 50000000 50 (mkClosure 2 3) 0 ::
             List.repeat (OWorker 400000000) 12) /\
  0 + to_ticks 100 = 50000000 + to_ticks 50 /\
  ~ In (OCancel 2) ([] ++ List.repeat (OWorker 400000000) 12) /\
  (forall l1 l2,
     fired_ids (run three_timers init) = l1 ++ 3 :: l2 -> In 2 l1).
Proof.
  assert (H1 : fits init ([OSchedule 0 300 (mkClosure 0 1) 0] ++
             OSchedule 0 100 (mkClosure 1 2) 1 ::
             [] ++ OSchedule 50000000 50 (mkClosure 2 3) 0 ::
             List.repeat (OWorker 400000000) 12))
    by (unfold fits, uint64_modulus; simpl; lia).
  assert (H2 : 0 + to_ticks 100 = 50000000 + to_ticks 50) by reflexivity.
  assert (H3 : ~ In (OCancel 2) ([] ++ List.repeat (OWorker 400000000) 12)).
  { intro H. apply repeat_spec in H. discriminate H. }
  split; [exact H1|]. split; [exact H2|]. split; [exact H3|].
  exact (proj2 (proj2 (proj2 (proj2
    (C6_equal_deadlines_fire_in_insertion_order
       [OSchedule 0 300 (mkClosure 0 1) 0] 0 100 (mkClosure 1 2) 1 []
       50000000 50 (mkClosure 2 3) 0 (List.repeat (OWorker 400000000) 12)
       H1 H2 H3))))).
Defined.

(** ** The sample runs, evaluated *)

Example two_repetitions_fired :
  fired (run two_repetitions init) =
  [mkFired 1 100000000 (mkClosure 0 42); mkFired 1 200000000 (mkClosure 0 42);
   mkFired 1 300000000 (mkClosure 0 42)] /\
  timers (run two_repetitions init) = [].
Proof. split; reflexivity. Qed.

Example three_timers_fired :
  fired_ids (run three_timers init) = [2; 3; 2; 1] /\
  dues (run three_timers init) =
  [100000000; 100000000; 200000000; 300000000].
Proof. split; reflexivity. Qed.

(** * Further properties of the service *)

(** ** One turn of the worker loop *)

Section Turns.

Lemma single_shot_turn T s k d rest :
  worker s = AtLoopHead -> running s = true -> timers s = (k, d) :: rest ->
  repeat d = 0 -> k <= T ->
  run [OWorker T; OWorker T; OWorker T] s =
  mkState rest true (next_id s) AtLoopHead (fired s ++ [to_fired (k, d)]).
Proof.
  intros Ew Hr Et Hrep Hk. simpl.
  rewrite (worker_erase T s k d rest) by assumption.
  rewrite (worker_single_shot T
             (mkState rest true (next_id s) (Erased k d) (fired s)) k d)
    by (try reflexivity; exact Hrep).
  reflexivity.
Qed.

Lemma endless_turn T s k d rest :
  worker s = AtLoopHead -> running s = true -> timers s = (k, d) :: rest ->
  repeat d < 0 -> k <= T ->
  run [OWorker T; OWorker T; OWorker T] s =
  mkState (emplace (k + to_ticks (period d)) d rest) true (next_id s)
          AtLoopHead (fired s ++ [to_fired (k, d)]).
Proof.
  intros Ew Hr Et Hrep Hk. simpl.
  rewrite (worker_erase T s k d rest) by assumption.
  assert (E0 : (repeat d =? 0) = false) by (apply Z.eqb_neq; lia).
  assert (E1 : (0 <? repeat d) = false) by (apply Z.ltb_ge; lia).
  unfold worker_ at 2. cbn [worker]. rewrite E0, E1. reflexivity.
Qed.

Lemma emplace_front k v l :
  Forall (fun e => k < fst e) l -> emplace k v l = (k, v) :: l.
Proof.
  destruct l as [|[k' v'] r]; simpl; intro H; [reflexivity|].
  inversion H as [|? ? Hk _]; subst. simpl in Hk.
  apply Z.ltb_lt in Hk. rewrite Hk. reflexivity.
Qed.

End Turns.

(** ** A single shot timer *)

(** X1. A timer scheduled with [repeat] 0 (the default) fires at most once,
    whatever calls are interleaved.  As long as it is not cancelled it has
    fired once or has one firing before it.  Once it has fired, no entry of
    it is in the multimap and [cancel] returns false for it.  Scheduled on
    an idle service and left with the worker and a clock past its deadline,
    it fires exactly once, at three worker turns, and the multimap is empty
    again. *)
Theorem X1_single_shot_fires_at_most_once
    (pre : list Op) (now : TimePoint) (delay : milliseconds) (cb : Closure)
    (post : list Op) :
  fits init (pre ++ OSchedule now delay cb 0 :: post) ->
  let s := run pre init in
  let i := next_id s in
  let sf := run (pre ++ OSchedule now delay cb 0 :: post) init in
  fire_count i sf <= 1 /\
  (~ In (OCancel i) post -> fire_count i sf + remaining i sf = 1) /\
  (fire_count i sf = 1 ->
   ~ In i (ids (timers sf)) /\ snd (cancel i sf) = false) /\
  (timers s = [] -> worker s = AtLoopHead -> running s = true ->
   forall T, now + to_ticks delay <= T ->
     run [OWorker T; OWorker T; OWorker T] (fst (schedule now delay cb 0 s)) =
     mkState [] true (next_id (fst (schedule now delay cb 0 s))) AtLoopHead
             (fired s ++ [mkFired i (now + to_ticks delay) cb])).
Proof.
  intros Hf s i sf.
  destruct (fits_app _ _ _ WF_init Hf) as [Hfpre Hfrest].
  pose proof (WF_reach _ Hfpre) as Hwf. fold s in Hwf, Hfrest.
  destruct (fits_cons _ _ _ Hwf Hfrest) as [Hb Hfpost].
  specialize (Hb eq_refl).
  set (s1 := fst (schedule now delay cb 0 s)) in *.
  assert (Hwf1 : WF s1) by (apply WF_schedule; assumption).
  assert (Hlt1 : i < next_id s1).
  { unfold s1. rewrite next_id_schedule;
      [unfold i; lia|apply (wf_next _ Hwf)|exact Hb]. }
  destruct (countdown_start now delay cb 0 s Hwf) as [Hc1 Hsum1]; [lia|].
  fold s1 i in Hc1, Hsum1.
  assert (Esf : sf = run post s1) by (unfold sf; rewrite run_app; reflexivity).
  destruct (countdown_run i post s1 Hwf1 Hfpost Hlt1 Hc1) as (Hc & Hle & Heq).
  rewrite <- Esf in Hc, Hle, Heq.
  pose proof Hc as [Hcs Hcw].
  pose proof (stored_firings_nonneg i _ Hcs) as H1.
  pose proof (held_firings_nonneg i _ Hcw) as H2.
  assert (Hrem : remaining i sf = stored_firings i (timers sf) +
                                  held_firings i (worker sf)) by reflexivity.
  split; [lia|]. split; [intro Hn; rewrite (Heq Hn); lia|].
  split.
  - intro E1.
    assert (Hz : stored_firings i (timers sf) = 0) by lia.
    apply (stored_firings_zero i _ Hcs) in Hz.
    split; [exact Hz|apply cancel_false_iff; exact Hz].
  - intros Et Ew Hr T HT.
    apply (single_shot_turn T s1 (now + to_ticks delay)
             (mkTimerData i cb 0 delay) []); try assumption; try reflexivity.
    unfold s1. simpl. rewrite Et. reflexivity.
Qed.

Lemma X1_witness :
  fits init ([] ++ [OSchedule 0 100 (mkClosure 0 42) 0; OWorker 150000000;
                    OWorker 150000000; OWorker 150000000; OWorker 200000000]) /\
  fire_count 1 (run [OSchedule 0 100 (mkClosure 0 42) 0; OWorker 150000000;
                     OWorker 150000000; OWorker 150000000; OWorker 200000000]
                    init) <= 1.
Proof.
  assert (H : fits init ([] ++ [OSchedule 0 100 (mkClosure 0 42) 0;
                    OWorker 150000000; OWorker 150000000; OWorker 150000000;
                    OWorker 200000000]))
    by (unfold fits, uint64_modulus; simpl; lia).
  split; [exact H|].
  exact (proj1 (X1_single_shot_fires_at_most_once
                  [] 0 100 (mkClosure 0 42)
                  [OWorker 150000000; OWorker 150000000; OWorker 150000000;
                   OWorker 200000000] H)).
Defined.

(** ** An endless timer *)

Section Endless.

Variables (i : TimerId) (rep : Z).
Hypothesis Hrep : rep < 0.

Lemma endless_worker now s : endless i rep s -> endless i rep (worker_ now s).
Proof.
  intro He. pose proof He as (Hs & Hw & Hin). unfold worker_.
  destruct (worker s) as [|k d|k d|] eqn:Ew.
  - destruct (running s); simpl.
    + destruct (timers s) as [|[k d] rest] eqn:Et; [exact He|].
      destruct (k <=? now); [|exact He].
      split; [|split]; simpl.
      * intros k' d' H. apply (Hs k' d'). right. exact H.
      * intros k' d' E. inversion E; subst. apply (Hs k' d'). left. reflexivity.
      * destruct Hin as [Hin|[]]. simpl in Hin.
        destruct Hin as [Hin|Hin]; [right; left; exact Hin|left; exact Hin].
    + split; [exact Hs|]. split; [discriminate|]. simpl.
      destruct Hin as [Hin|[]]. left. exact Hin.
  - destruct (repeat d =? 0) eqn:E0; simpl.
    + apply Z.eqb_eq in E0. split; [exact Hs|]. split; [discriminate|]. simpl.
      destruct Hin as [Hin|[Hin|[]]]; [left; exact Hin|].
      pose proof (Hw k d eq_refl Hin). lia.
    + set (d' := if 0 <? repeat d then decrement d else d).
      assert (Eid : id d' = id d)
        by (unfold d'; destruct (0 <? repeat d); reflexivity).
      assert (Ed : id d = i -> d' = d).
      { intro Hid. pose proof (Hw k d eq_refl Hid) as Hr. unfold d'.
        assert (E1 : (0 <? repeat d) = false) by (apply Z.ltb_ge; lia).
        rewrite E1. reflexivity. }
      split; [|split]; simpl.
      * intros k' e H Hid. apply emplace_in in H. destruct H as [E|H].
        -- inversion E; subst k' e. rewrite Eid in Hid. rewrite (Ed Hid).
           apply (Hw k d eq_refl Hid).
        -- apply (Hs k' e H Hid).
      * discriminate.
      * left. destruct Hin as [Hin|[Hin|[]]].
        -- apply (Permutation_in _ (Permutation_sym (ids_emplace_perm _ _ _))).
           right. exact Hin.
        -- apply (Permutation_in _ (Permutation_sym (ids_emplace_perm _ _ _))).
           left. rewrite Eid. exact Hin.
  - split; [exact Hs|]. split; [discriminate|]. simpl.
    destruct Hin as [Hin|[]]. left. exact Hin.
  - exact He.
Qed.

Lemma endless_step o s :
  i < next_id s -> o <> OCancel i ->
  endless i rep s -> endless i rep (fst (step o s)).
Proof.
  intros Hlt Ho He. pose proof He as (Hs & Hw & Hin).
  destruct o as [now dl cb r|j| |now].
  - split; [|split]; simpl.
    + intros k d H Hid. apply emplace_in in H. destruct H as [E|H].
      * inversion E; subst k d. simpl in Hid. lia.
      * apply (Hs k d H Hid).
    + exact Hw.
    + destruct Hin as [Hin|Hin]; [left|right; exact Hin].
      apply (Permutation_in _ (Permutation_sym (ids_emplace_perm _ _ _))).
      right. exact Hin.
  - assert (Hj : j <> i) by (intro E; apply Ho; rewrite E; reflexivity).
    unfold step, cancel. destruct (erase_id j (timers s)) as [l|] eqn:E; simpl;
      [|exact He].
    split; [|split]; simpl.
    + intros k d H. apply (Hs k d).
      destruct (erase_id_some _ _ _ E) as (l1 & k0 & d0 & l2 & -> & _ & _ & ->).
      apply in_app_or in H. apply in_or_app.
      destruct H; [left|right; right]; assumption.
    + exact Hw.
    + destruct Hin as [Hin|Hin]; [left|right; exact Hin].
      unfold ids in Hin. apply in_map_iff in Hin. destruct Hin as (e & Hid & He').
      pose proof (erase_id_keeps j _ _ e E He') as Hk.
      unfold ids. apply in_map_iff. exists e. split; [exact Hid|].
      apply Hk. rewrite Hid. auto.
  - exact He.
  - apply endless_worker, He.
Qed.

Lemma endless_run ops s :
  WF s -> fits s ops -> i < next_id s -> ~ In (OCancel i) ops ->
  endless i rep s -> endless i rep (run ops s).
Proof.
  revert s. induction ops as [|o ops IH]; simpl; intros s Hwf Hf Hlt Hn He;
    [exact He|].
  destruct (fits_cons _ _ _ Hwf Hf) as [Hb Hf'].
  apply IH.
  - apply WF_step; assumption.
  - exact Hf'.
  - rewrite next_id_step; [|apply (wf_next _ Hwf)|exact Hb].
    destruct (is_schedule o); lia.
  - intro H. apply Hn. right. exact H.
  - apply endless_step; [exact Hlt| |exact He].
    intro E. apply Hn. left. exact E.
Qed.

End Endless.

Lemma endless_alone (T : TimePoint) (n : nat) :
  forall k d s,
    timers s = [(k, d)] -> running s = true -> worker s = AtLoopHead ->
    repeat d < 0 -> 0 <= period d ->
    k + Z.of_nat n * to_ticks (period d) <= T ->
    run (List.repeat (OWorker T) (3 * n)) s =
    mkState [(k + Z.of_nat n * to_ticks (period d), d)] true (next_id s)
      AtLoopHead
      (fired s ++
       map (fun j => mkFired (id d) (k + Z.of_nat j * to_ticks (period d))
                             (callback d))
           (seq 0 n)).
Proof.
  induction n as [|m IH]; intros k d s Et Hr Ew Hrep Hp HT;
    pose proof (to_ticks_nonneg _ Hp) as HP.
  - simpl. rewrite app_nil_r, Z.add_0_r. destruct s; simpl in *; subst; reflexivity.
  - replace (3 * S m)%nat with (3 + 3 * m)%nat by lia.
    rewrite repeat_app, run_app.
    change (List.repeat (OWorker T) 3) with [OWorker T; OWorker T; OWorker T].
    rewrite (endless_turn T s k d []) by (try assumption; nia).
    cbn [emplace].
    rewrite (IH (k + to_ticks (period d)) d); try reflexivity; try assumption.
    + cbn [next_id fired]. rewrite <- app_assoc. f_equal.
      * f_equal. f_equal. lia.
      * f_equal. rewrite (map_seq_S _ m). cbn [app]. f_equal.
        -- unfold to_fired. simpl. f_equal. lia.
        -- apply map_ext. intro j. f_equal. lia.
    + lia.
Qed.

(** X2. A timer scheduled with a negative [repeat] is never used up.  As
    long as it is not cancelled, whatever calls are interleaved, an entry
    of it is in the multimap or held by the worker for the restart, still
    with the same negative [repeat]; the restart puts the data the worker
    holds back into the multimap as they are (no decrement, lines 151 to
    155), whatever the key they go back under, and the worker goes on to
    the call of that timer.  Scheduled on an idle service with a delay that
    is not negative and left with the worker alone, it has fired n times
    after 3 n worker turns, for every n the clock allows, and waits for
    firing n + 1. *)
Theorem X2_endless_timer_never_used_up
    (pre : list Op) (now : TimePoint) (delay : milliseconds) (cb : Closure)
    (rep : Z) (post : list Op) :
  rep < 0 ->
  fits init (pre ++ OSchedule now delay cb rep :: post) ->
  ~ In (OCancel (next_id (run pre init))) post ->
  let s := run pre init in
  let i := next_id s in
  let sf := run (pre ++ OSchedule now delay cb rep :: post) init in
  (In i (ids (timers sf)) \/ In i (held (worker sf))) /\
  (forall k d, In (k, d) (timers sf) -> id d = i -> repeat d = rep) /\
  (forall k d now',
     worker sf = Erased k d -> id d = i ->
     repeat d = rep /\
     Permutation (map snd (timers (worker_ now' sf)))
                 (d :: map snd (timers sf)) /\
     in_hand (worker (worker_ now' sf)) = [i]) /\
  (timers s = [] -> worker s = AtLoopHead -> running s = true ->
   0 <= delay ->
   forall (n : nat) T, now + to_ticks ((Z.of_nat n + 1) * delay) <= T ->
     let s1 := run (List.repeat (OWorker T) (3 * n))
                   (fst (schedule now delay cb rep s)) in
     fire_count i s1 = Z.of_nat n /\
     timers s1 = [(now + to_ticks ((Z.of_nat n + 1) * delay),
                   mkTimerData i cb rep delay)]).
Proof.
  intros Hrep Hf Hn s i sf.
  destruct (fits_app _ _ _ WF_init Hf) as [Hfpre Hfrest].
  pose proof (WF_reach _ Hfpre) as Hwf. fold s in Hwf, Hfrest.
  destruct (fits_cons _ _ _ Hwf Hfrest) as [Hb Hfpost].
  specialize (Hb eq_refl).
  set (s1 := fst (schedule now delay cb rep s)) in *.
  assert (Hwf1 : WF s1) by (apply WF_schedule; assumption).
  assert (Hlt1 : i < next_id s1).
  { unfold s1. rewrite next_id_schedule;
      [unfold i; lia|apply (wf_next _ Hwf)|exact Hb]. }
  pose proof (wf_store _ Hwf) as Hst. pose proof (wf_hand _ Hwf) as Hh.
  rewrite Forall_forall in Hst, Hh.
  assert (He1 : endless i rep s1).
  { split; [|split].
    - intros k d H Hid. unfold s1 in H. simpl in H. apply emplace_in in H.
      destruct H as [E|H]; [inversion E; reflexivity|].
      apply in_ids_entry in H. specialize (Hst _ H). unfold i in Hid. lia.
    - intros k d Ew Hid. exfalso.
      assert (Hin : In (id d) (in_hand (worker s))).
      { unfold s1 in Ew. simpl in Ew. rewrite Ew. left. reflexivity. }
      specialize (Hh _ Hin). unfold i in Hid. lia.
    - left. unfold s1. simpl.
      apply (Permutation_in _ (Permutation_sym (ids_emplace_perm _ _ _))).
      left. reflexivity. }
  assert (Esf : sf = run post s1) by (unfold sf; rewrite run_app; reflexivity).
  pose proof (endless_run i rep Hrep post s1 Hwf1 Hfpost Hlt1 Hn He1)
    as (Hs & Hw & Hin).
  rewrite <- Esf in Hs, Hw, Hin.
  split; [exact Hin|]. split; [exact Hs|]. split.
  - intros k d now' Ew Hid. pose proof (Hw k d Ew Hid) as Hr.
    split; [exact Hr|].
    unfold worker_. rewrite Ew.
    assert (E0 : (repeat d =? 0) = false) by (apply Z.eqb_neq; lia).
    assert (E1 : (0 <? repeat d) = false) by (apply Z.ltb_ge; lia).
    rewrite E0, E1. cbn [negb schedule_until fst set_worker timers worker in_hand].
    split; [|rewrite Hid; reflexivity].
    exact (Permutation_map snd (emplace_perm (k + to_ticks (period d)) d (timers sf))).
  - intros Et Ew Hr Hd n T HT s2.
    assert (E2 : s2 = mkState
              [(now + to_ticks delay + Z.of_nat n * to_ticks delay,
                mkTimerData i cb rep delay)] true (next_id s1) AtLoopHead
              (fired s1 ++
               map (fun j => mkFired i
                      (now + to_ticks delay + Z.of_nat j * to_ticks delay) cb)
                   (seq 0 n))).
    { unfold s2.
      apply (endless_alone T n (now + to_ticks delay)
               (mkTimerData i cb rep delay) s1).
      - unfold s1. simpl. rewrite Et. reflexivity.
      - exact Hr.
      - exact Ew.
      - exact Hrep.
      - exact Hd.
      - simpl period. unfold to_ticks in *. lia. }
    split.
    + assert (Hfc0 : fire_count i s1 = 0).
      { unfold fire_count. rewrite (due_times_same i s s1) by reflexivity.
        unfold i. rewrite (due_times_fresh _ _ (wf_fired _ Hwf)). reflexivity. }
      unfold fire_count, due_times in Hfc0.
      rewrite E2. unfold fire_count, due_times. cbn [fired].
      rewrite filter_app, map_app, length_app.
      assert (Hall : forall l : list nat,
                length (map f_due (filter (fun e => f_id e =? i)
                  (map (fun j => mkFired i
                     (now + to_ticks delay + Z.of_nat j * to_ticks delay) cb) l)))
                = length l).
      { induction l as [|x l IHl]; simpl; [reflexivity|].
        rewrite Z.eqb_refl. simpl. rewrite IHl. reflexivity. }
      rewrite Hall, length_seq. lia.
    + rewrite E2. simpl. f_equal. f_equal. unfold to_ticks. lia.
Qed.

Lemma X2_witness :
  -1 < 0 /\
  fits init ([] ++ OSchedule 0 100 (mkClosure 0 42) (-1) ::
             List.repeat (OWorker 900000000) 7) /\
  ~ In (OCancel 1) (List.repeat (OWorker 900000000) 7) /\
  (In 1 (ids (timers (run (OSchedule 0 100 (mkClosure 0 42) (-1) ::
                           List.repeat (OWorker 900000000) 7) init))) \/
   In 1 (held (worker (run (OSchedule 0 100 (mkClosure 0 42) (-1) ::
                            List.repeat (OWorker 900000000) 7) init)))).
Proof.
  assert (H0 : -1 < 0) by lia.
  assert (H1 : fits init ([] ++ OSchedule 0 100 (mkClosure 0 42) (-1) ::
             List.repeat (OWorker 900000000) 7))
    by (unfold fits, uint64_modulus; simpl; lia).
  assert (H2 : ~ In (OCancel 1) (List.repeat (OWorker 900000000) 7)).
  { intro H. apply repeat_spec in H. discriminate H. }
  split; [exact H0|]. split; [exact H1|]. split; [exact H2|].
  exact (proj1 (X2_endless_timer_never_used_up
                  [] 0 100 (mkClosure 0 42) (-1)
                  (List.repeat (OWorker 900000000) 7) H0 H1 H2)).
Defined.

(** ** What a successful cancel achieves *)

Section Stopped.

Variables (i : TimerId) (c : Z).

Lemma stopped_worker now s : stopped i c s -> stopped i c (worker_ now s).
Proof.
  intro Hst. pose proof Hst as (Hni & Hlt & Hnh & Hc). unfold worker_.
  destruct (worker s) as [|k d|k d|] eqn:Ew.
  - destruct (running s); simpl.
    + destruct (timers s) as [|[k d] rest] eqn:Et; [exact Hst|].
      destruct (k <=? now); [|exact Hst].
      simpl in Hni. unfold stopped. simpl.
      rewrite (fire_count_same i s) by reflexivity.
      split; [tauto|]. split; [exact Hlt|]. split; [tauto|exact Hc].
    + unfold stopped. simpl. rewrite (fire_count_same i s) by reflexivity.
      split; [exact Hni|]. split; [exact Hlt|]. split; [tauto|exact Hc].
  - simpl in Hnh.
    assert (Hne : (id d =? i) = false) by (apply Z.eqb_neq; tauto).
    destruct (repeat d =? 0); unfold stopped; simpl;
      rewrite (fire_count_same i s) by reflexivity.
    + rewrite Hne. split; [exact Hni|]. split; [exact Hlt|]. split; [tauto|exact Hc].
    + assert (Eid : id (if 0 <? repeat d then decrement d else d) = id d)
        by (destruct (0 <? repeat d); reflexivity).
      rewrite Eid, Hne. split; [|split; [exact Hlt|split; [tauto|exact Hc]]].
      intro H. apply (Permutation_in _ (ids_emplace_perm _ _ _)) in H.
      simpl in H. rewrite Eid in H. tauto.
  - set (s' := mkState (timers s) (running s) (next_id s) AtLoopHead
                 (fired s ++ [mkFired (id d) k (callback d)])).
    unfold stopped. simpl. split; [exact Hni|]. split; [exact Hlt|].
    split; [tauto|]. unfold fire_count in *.
    rewrite (due_times_snoc i s s' (mkFired (id d) k (callback d)) eq_refl).
    rewrite length_app. simpl in Hc. simpl f_id.
    destruct (id d =? i); simpl length; lia.
  - exact Hst.
Qed.

Lemma stopped_step o s :
  1 <= next_id s ->
  (is_schedule o = true -> next_id s + 1 < uint64_modulus) ->
  stopped i c s -> stopped i c (fst (step o s)).
Proof.
  intros Hn Hb Hst. pose proof Hst as (Hni & Hlt & Hnh & Hc).
  destruct o as [now dl cb r|j| |now].
  - specialize (Hb eq_refl). unfold stopped. simpl.
    rewrite Z.mod_small by lia.
    rewrite (fire_count_same i s) by reflexivity.
    split; [|split; [lia|split; [exact Hnh|exact Hc]]].
    intro H. apply (Permutation_in _ (ids_emplace_perm _ _ _)) in H.
    simpl in H. destruct H as [H|H]; [lia|exact (Hni H)].
  - unfold step, cancel. destruct (erase_id j (timers s)) as [l|] eqn:E; simpl;
      [|exact Hst].
    destruct (erase_id_some _ _ _ E) as (l1 & k & d & l2 & El & _ & _ & ->).
    unfold stopped. simpl. rewrite (fire_count_same i s) by reflexivity.
    split; [|split; [exact Hlt|split; [exact Hnh|exact Hc]]].
    rewrite El in Hni. rewrite ids_app in *. simpl in Hni.
    intro H. apply Hni. apply in_app_or in H. apply in_or_app.
    destruct H as [H|H]; [left; exact H|right; right; exact H].
  - exact Hst.
  - apply stopped_worker, Hst.
Qed.

Lemma stopped_run ops s :
  WF s -> fits s ops -> stopped i c s -> stopped i c (run ops s).
Proof.
  revert s. induction ops as [|o ops IH]; simpl; intros s Hwf Hf Hst; [exact Hst|].
  destruct (fits_cons _ _ _ Hwf Hf) as [Hb Hf'].
  apply IH; [apply WF_step; assumption|exact Hf'|].
  apply stopped_step; [apply (wf_next _ Hwf)|exact Hb|exact Hst].
Qed.

End Stopped.

(** X3. After [cancel] has returned true for a timer, the callback of that
    timer runs at most once more: only the run the worker had already
    reached when the entry was erased (a periodic timer that was restarted
    before its callback), and not at all when no run was under way.  No
    entry of the timer is ever in the multimap again. *)
Theorem X3_cancelled_timer_fires_no_more
    (pre : list Op) (i : TimerId) (post : list Op) :
  fits init (pre ++ OCancel i :: post) ->
  snd (cancel i (run pre init)) = true ->
  let s := run pre init in
  let sf := run (pre ++ OCancel i :: post) init in
  fire_count i s <= fire_count i sf <= fire_count i s + calling i (worker s) /\
  (calling i (worker s) = 0 -> fire_count i sf = fire_count i s) /\
  ~ In i (ids (timers sf)).
Proof.
  intros Hf Ht s sf.
  destruct (fits_app _ _ _ WF_init Hf) as [Hfpre Hfrest].
  pose proof (WF_reach _ Hfpre) as Hwf. fold s in Hwf, Hfrest, Ht.
  destruct (fits_cons _ _ _ Hwf Hfrest) as [_ Hfpost].
  assert (E : fst (step (OCancel i) s) = fst (cancel i s))
    by (unfold step; destruct (cancel i s); reflexivity).
  rewrite E in Hfpost.
  set (s1 := fst (cancel i s)) in *.
  assert (Esf : sf = run post s1).
  { unfold sf. rewrite run_app. fold s.
    change (run (OCancel i :: post) s) with (run post (fst (step (OCancel i) s))).
    rewrite E. reflexivity. }
  destruct (cancel_true_retired _ _ Hwf Ht) as (Hni & Hlt & _). fold s1 in Hni, Hlt.
  destruct (cancel_true_shape _ _ Ht) as (l1 & k & d & l2 & El & Hid & _ & Es1).
  fold s1 in Es1.
  assert (Hnh : ~ In i (held (worker s))).
  { intro H. pose proof (wf_nodup _ Hwf) as Hd. rewrite El, ids_app in Hd.
    destruct (worker s) as [|k0 d0|k0 d0|]; simpl in H; try contradiction.
    destruct H as [H|[]]. simpl in Hd. apply NoDup_cons_iff in Hd.
    destruct Hd as [Hnot _].
    apply Hnot. apply in_or_app. right. left. rewrite Hid. symmetry. exact H. }
  assert (Hst : stopped i (fire_count i s + calling i (worker s)) s1).
  { split; [exact Hni|]. split; [exact Hlt|]. rewrite Es1. simpl.
    rewrite (fire_count_same i s (set_timers (l1 ++ l2) s)) by reflexivity.
    split; [exact Hnh|lia]. }
  pose proof (stopped_run i _ post s1 (WF_cancel i s Hwf) Hfpost Hst)
    as (Hni' & _ & _ & Hc).
  rewrite <- Esf in Hni', Hc.
  assert (Hge : fire_count i s <= fire_count i sf).
  { rewrite Esf. pose proof (fire_count_grows i post s1) as Hg.
    rewrite (fire_count_same i s s1) in Hg; [exact Hg|].
    rewrite Es1. reflexivity. }
  assert (Hcal : 0 <= calling i (worker sf)).
  { destruct (worker sf) as [|k0 d0|k0 d0|]; simpl; try lia.
    destruct (id d0 =? i); lia. }
  split; [lia|]. split; [intro E0; lia|exact Hni'].
Qed.

Lemma X3_witness :
  fits init ([OSchedule 0 500 (mkClosure 0 42) 0; OWorker 100000000] ++
             OCancel 1 :: List.repeat (OWorker 600000000) 3) /\
  snd (cancel 1 (run [OSchedule 0 500 (mkClosure 0 42) 0; OWorker 100000000]
                     init)) = true /\
  fire_count 1 (run ([OSchedule 0 500 (mkClosure 0 42) 0; OWorker 100000000] ++
                     OCancel 1 :: List.repeat (OWorker 600000000) 3) init) = 0.
Proof.
  assert (H1 : fits init ([OSchedule 0 500 (mkClosure 0 42) 0; OWorker 100000000]
             ++ OCancel 1 :: List.repeat (OWorker 600000000) 3))
    by (unfold fits, uint64_modulus; simpl; lia).
  split; [exact H1|]. split; [reflexivity|].
  exact (proj1 (proj2 (X3_cancelled_timer_fires_no_more
                  [OSchedule 0 500 (mkClosure 0 42) 0; OWorker 100000000] 1
                  (List.repeat (OWorker 600000000) 3) H1 eq_refl)) eq_refl).
Defined.

(** X4. A [cancel] that arrives while the worker holds the erased entry of
    a timer with [repeat] not 0, before the restart, finds nothing: it
    returns false and changes nothing.  The timer is not stopped: the
    worker's next turn puts its entry back, for every clock reading, and a
    [cancel] made then returns true. *)
Theorem X4_cancel_between_erase_and_restart_misses
    (pre : list Op) (k : TimePoint) (d : TimerData) :
  fits init pre ->
  worker (run pre init) = Erased k d ->
  repeat d <> 0 ->
  let s := run pre init in
  cancel (id d) s = (s, false) /\
  (forall now,
     In (id d) (ids (timers (worker_ now s))) /\
     snd (cancel (id d) (worker_ now s)) = true) /\
  (forall now,
     ~ In (id d) (ids (timers (fst (cancel (id d) (worker_ now s)))))).
Proof.
  intros Hf Ew Hr s. pose proof (WF_reach _ Hf) as Hwf. fold s in Hwf, Ew.
  pose proof (wf_nodup _ Hwf) as Hd. rewrite Ew in Hd. simpl in Hd.
  apply NoDup_cons_iff in Hd. destruct Hd as [Hni _].
  assert (Hin : forall now, In (id d) (ids (timers (worker_ now s)))).
  { intro now. unfold worker_. rewrite Ew.
    apply Z.eqb_neq in Hr. rewrite Hr. simpl.
    apply (Permutation_in _ (Permutation_sym (ids_emplace_perm _ _ _))).
    left. destruct (0 <? repeat d); reflexivity. }
  split; [|split].
  - unfold cancel. apply erase_id_none in Hni. rewrite Hni. reflexivity.
  - intro now. split; [apply Hin|apply cancel_true_iff, Hin].
  - intro now.
    assert (Ht : snd (cancel (id d) (worker_ now s)) = true)
      by (apply cancel_true_iff, Hin).
    apply (cancel_true_retired _ _ (WF_worker now s Hwf) Ht).
Qed.

Lemma X4_witness :
  fits init [OSchedule 0 100 (mkClosure 0 42) (-1); OWorker 100000000] /\
  worker (run [OSchedule 0 100 (mkClosure 0 42) (-1); OWorker 100000000] init) =
    Erased 100000000 (mkTimerData 1 (mkClosure 0 42) (-1) 100) /\
  -1 <> 0 /\
  cancel 1 (run [OSchedule 0 100 (mkClosure 0 42) (-1); OWorker 100000000] init) =
    (run [OSchedule 0 100 (mkClosure 0 42) (-1); OWorker 100000000] init, false).
Proof.
  assert (H1 : fits init [OSchedule 0 100 (mkClosure 0 42) (-1); OWorker 100000000])
    by (unfold fits, uint64_modulus; simpl; lia).
  assert (H2 : -1 <> 0) by lia.
  split; [exact H1|]. split; [reflexivity|]. split; [exact H2|].
  exact (proj1 (X4_cancel_between_erase_and_restart_misses
                  [OSchedule 0 100 (mkClosure 0 42) (-1); OWorker 100000000]
                  100000000 (mkTimerData 1 (mkClosure 0 42) (-1) 100)
                  H1 eq_refl H2)).
Defined.

(** ** Schedule, then cancel *)

Lemma erase_emplace k v l :
  ~ In (id v) (ids l) -> erase_id (id v) (emplace k v l) = Some l.
Proof.
  induction l as [|[k' v'] r IH]; simpl; intro H.
  - rewrite Z.eqb_refl. reflexivity.
  - destruct (k <? k'); simpl.
    + rewrite Z.eqb_refl. reflexivity.
    + assert (E : (id v' =? id v) = false).
      { apply Z.eqb_neq. intro E. apply H. left. exact E. }
      rewrite E, IH; [reflexivity|]. intro Hin. apply H. right. exact Hin.
Qed.

(** X5. The id [schedule] returns can be cancelled at once: a [cancel] of
    it made right after the call returns true and takes out exactly the
    entry just stored, leaving the multimap as it was before the
    [schedule]; only the id counter has moved on.  The timer never fires:
    whatever calls follow, its callback is not run. *)
Theorem X5_schedule_then_cancel_restores_store
    (pre : list Op) (now : TimePoint) (delay : milliseconds) (cb : Closure)
    (rep : Z) (post : list Op) :
  fits init (pre ++ OSchedule now delay cb rep ::
             OCancel (next_id (run pre init)) :: post) ->
  let s := run pre init in
  let i := snd (schedule now delay cb rep s) in
  let s1 := fst (schedule now delay cb rep s) in
  cancel i s1 =
    (mkState (timers s) (running s) (next_id s + 1) (worker s) (fired s),
     true) /\
  fire_count i (run (pre ++ OSchedule now delay cb rep :: OCancel i :: post)
                    init) = 0.
Proof.
  intros Hf s i s1.
  destruct (fits_app _ _ _ WF_init Hf) as [Hfpre Hfrest].
  pose proof (WF_reach _ Hfpre) as Hwf. fold s in Hwf, Hfrest.
  destruct (fits_cons _ _ _ Hwf Hfrest) as [Hb Hf2]. specialize (Hb eq_refl).
  pose proof (wf_store _ Hwf) as Hst. pose proof (wf_hand _ Hwf) as Hh.
  rewrite Forall_forall in Hst, Hh.
  assert (Hns : ~ In (next_id s) (ids (timers s))).
  { intro H. specialize (Hst _ H). lia. }
  assert (E1 : cancel i s1 =
    (mkState (timers s) (running s) (next_id s + 1) (worker s) (fired s), true)).
  { pose proof (erase_emplace (now + to_ticks delay)
               (mkTimerData (next_id s) cb rep delay) (timers s) Hns) as Ee.
    cbn [id] in Ee.
    unfold cancel, s1, i, schedule. cbn [fst snd timers]. rewrite Ee.
    unfold set_timers. cbn [timers running next_id worker fired].
    rewrite Z.mod_small; [reflexivity|].
    pose proof (wf_next _ Hwf). lia. }
  split; [exact E1|].
  assert (Hwf1 : WF s1) by (apply WF_schedule; assumption).
  change (fst (step (OSchedule now delay cb rep) s)) with s1 in Hf2.
  destruct (fits_cons _ _ _ Hwf1 Hf2) as [_ Hfpost].
  assert (E : fst (step (OCancel (next_id s)) s1) = fst (cancel i s1))
    by (unfold step, i; simpl snd; destruct (cancel (next_id s) s1); reflexivity).
  rewrite E in Hfpost.
  rewrite run_app. fold s.
  change (run (OSchedule now delay cb rep :: OCancel i :: post) s)
    with (run post (fst (step (OCancel (next_id s)) s1))).
  rewrite E.
  assert (Hfc0 : fire_count i s = 0).
  { unfold fire_count, i. simpl snd.
    rewrite (due_times_fresh _ _ (wf_fired _ Hwf)). reflexivity. }
  assert (Hcal : calling i (worker s) = 0).
  { unfold i. simpl snd.
    destruct (worker s) as [|k0 d0|k0 d0|] eqn:Ew; simpl; try reflexivity.
    destruct (id d0 =? next_id s) eqn:E0; [|reflexivity].
    apply Z.eqb_eq in E0. specialize (Hh (id d0) (or_introl eq_refl)). lia. }
  assert (Hstop : stopped i 0 (fst (cancel i s1))).
  { rewrite E1. simpl. unfold stopped. simpl.
    rewrite (fire_count_same i s) by reflexivity.
    split; [exact Hns|]. split; [unfold i; simpl; lia|]. split; [|lia].
    intro H. apply held_in_hand in H. specialize (Hh _ H). unfold i in Hh.
    simpl in Hh. lia. }
  pose proof (stopped_run i 0 post _ (WF_cancel i s1 Hwf1) Hfpost Hstop)
    as (_ & _ & _ & Hc).
  pose proof (fire_count_grows i post (fst (cancel i s1))) as Hg.
  assert (Hfc1 : fire_count i (fst (cancel i s1)) = 0).
  { rewrite E1. simpl. rewrite (fire_count_same i s) by reflexivity. exact Hfc0. }
  assert (Hcal' : 0 <= calling i (worker (run post (fst (cancel i s1))))).
  { destruct (worker (run post (fst (cancel i s1)))) as [|k0 d0|k0 d0|]; simpl;
      try lia. destruct (id d0 =? i); lia. }
  lia.
Qed.

Lemma X5_witness :
  fits init (sample_ops ++ OSchedule 20 30 (mkClosure 3 9) 5 ::
             OCancel (next_id (run sample_ops init)) :: [OWorker 900000000]) /\
  snd (cancel 4 (fst (schedule 20 30 (mkClosure 3 9) 5 (run sample_ops init))))
    = true.
Proof.
  assert (H1 : fits init (sample_ops ++ OSchedule 20 30 (mkClosure 3 9) 5 ::
             OCancel (next_id (run sample_ops init)) :: [OWorker 900000000]))
    by (unfold fits, uint64_modulus; simpl; lia).
  split; [exact H1|].
  exact (f_equal snd (proj1 (X5_schedule_then_cancel_restores_store
                  sample_ops 20 30 (mkClosure 3 9) 5 [OWorker 900000000] H1))).
Defined.

(** ** No callback before its deadline *)

Lemma taken_by_step c o s :
  (forall now, o = OWorker now -> now <= c) ->
  taken_by c s -> taken_by c (fst (step o s)).
Proof.
  intros Ho Htk. pose proof Htk as [Hd Hw].
  destruct o as [now dl cb r|j| |now].
  - exact Htk.
  - unfold step, cancel. destruct (erase_id j (timers s)); exact Htk.
  - exact Htk.
  - specialize (Ho now eq_refl). simpl. unfold worker_.
    destruct (worker s) as [|k d|k d|] eqn:Ew.
    + destruct (running s); simpl.
      * destruct (timers s) as [|[k d] rest] eqn:Et; [exact Htk|].
        destruct (k <=? now) eqn:Ek; [|exact Htk].
        apply Z.leb_le in Ek. split; [exact Hd|simpl; lia].
      * split; [exact Hd|exact I].
    + destruct (repeat d =? 0); split; simpl; assumption.
    + split; [|exact I]. unfold dues. simpl. rewrite map_app. simpl.
      intros y Hy. apply in_app_or in Hy. destruct Hy as [Hy|[<-|[]]].
      * apply Hd, Hy.
      * exact Hw.
    + exact Htk.
Qed.

Lemma taken_by_run c ops s :
  (forall now, In (OWorker now) ops -> now <= c) ->
  taken_by c s -> taken_by c (run ops s).
Proof.
  revert s. induction ops as [|o ops IH]; simpl; intros s Ho Htk; [exact Htk|].
  apply IH; [intros now H; apply Ho; right; exact H|].
  apply taken_by_step; [|exact Htk].
  intros now E. apply Ho. left. exact E.
Qed.

(** X6. No callback is run before its deadline.  If no turn of the worker
    reads the clock later than [c], then, whatever calls are interleaved,
    every callback that was run had a deadline not after [c], and so has
    the entry the worker has erased for firing. *)
Theorem X6_no_callback_before_its_deadline (ops : list Op) (c : TimePoint) :
  (forall now, In (OWorker now) ops -> now <= c) ->
  Forall (fun e => f_due e <= c) (fired (run ops init)) /\
  (forall k d,
     worker (run ops init) = Erased k d \/ worker (run ops init) = Calling k d ->
     k <= c).
Proof.
  intro Ho.
  assert (H0 : taken_by c init) by (split; [intros y []|exact I]).
  destruct (taken_by_run c ops init Ho H0) as [Hd Hw]. split.
  - apply Forall_forall. intros e He. apply Hd. unfold dues.
    apply in_map. exact He.
  - intros k d [E|E]; rewrite E in Hw; exact Hw.
Qed.

Lemma X6_witness :
  (forall now, In (OWorker now) three_timers -> now <= 400000000) /\
  Forall (fun e => f_due e <= 400000000) (fired (run three_timers init)).
Proof.
  assert (H : forall now, In (OWorker now) three_timers -> now <= 400000000).
  { intros now Hin. unfold three_timers in Hin. apply in_app_or in Hin.
    destruct Hin as [Hin|Hin].
    - simpl in Hin. destruct Hin as [E|[E|[E|[]]]]; discriminate E.
    - apply repeat_spec in Hin. inversion Hin. lia. }
  split; [exact H|].
  exact (proj1 (X6_no_callback_before_its_deadline three_timers 400000000 H)).
Defined.

(** ** A restart without delay *)

Section Monopoly.

Variables (k : TimePoint) (d : TimerData) (rest : Store).
Hypothesis Hrep : repeat d < 0.
Hypothesis Hper : period d = 0.
Hypothesis Hlater : Forall (fun e => k < fst e) rest.

Lemma monopolised_worker now s :
  monopolised k d rest s ->
  monopolised k d rest (worker_ now s) /\
  (fired (worker_ now s) = fired s \/
   fired (worker_ now s) = fired s ++ [to_fired (k, d)]).
Proof.
  intro Hm. pose proof Hm as [[Hw Ht]|[Hw Ht]]; unfold worker_.
  - destruct Hw as [Hw|[Hw|Hw]]; rewrite Hw.
    + destruct (running s); simpl.
      * rewrite Ht. destruct (k <=? now).
        -- split; [right; split; reflexivity|left; reflexivity].
        -- split; [exact Hm|left; reflexivity].
      * split; [left; split; [right; left; reflexivity|exact Ht]|left; reflexivity].
    + split; [exact Hm|left; reflexivity].
    + split; [left; split; [left; reflexivity|exact Ht]|right; reflexivity].
  - rewrite Hw.
    assert (E0 : (repeat d =? 0) = false) by (apply Z.eqb_neq; lia).
    assert (E1 : (0 <? repeat d) = false) by (apply Z.ltb_ge; lia).
    rewrite E0, E1. simpl. rewrite Ht, Hper.
    replace (k + to_ticks 0) with k by (unfold to_ticks; lia).
    rewrite (emplace_front k d rest Hlater).
    split; [left; split; [right; right; reflexivity|reflexivity]|left; reflexivity].
Qed.

Lemma monopolised_run nows s :
  monopolised k d rest s ->
  monopolised k d rest (run (map OWorker nows) s) /\
  exists n, fired (run (map OWorker nows) s) =
            fired s ++ List.repeat (to_fired (k, d)) n.
Proof.
  revert s. induction nows as [|now nows IH]; simpl; intros s Hm.
  - split; [exact Hm|]. exists 0%nat. simpl. rewrite app_nil_r. reflexivity.
  - destruct (monopolised_worker now s Hm) as [Hm' Hf].
    destruct (IH _ Hm') as [Hm'' [n En]]. split; [exact Hm''|].
    destruct Hf as [Hf|Hf]; rewrite Hf in En.
    + exists n. exact En.
    + exists (S n). rewrite En, <- app_assoc. reflexivity.
Qed.

Lemma monopolised_turns T n s :
  worker s = AtLoopHead -> running s = true -> timers s = (k, d) :: rest ->
  k <= T ->
  run (List.repeat (OWorker T) (3 * n)) s =
  mkState ((k, d) :: rest) true (next_id s) AtLoopHead
          (fired s ++ List.repeat (to_fired (k, d)) n).
Proof.
  revert s. induction n as [|m IH]; intros s Ew Hr Et Hk.
  - simpl. rewrite app_nil_r. destruct s; simpl in *; subst; reflexivity.
  - replace (3 * S m)%nat with (3 + 3 * m)%nat by lia.
    rewrite repeat_app, run_app.
    change (List.repeat (OWorker T) 3) with [OWorker T; OWorker T; OWorker T].
    rewrite (endless_turn T s k d rest) by assumption.
    rewrite Hper. replace (k + to_ticks 0) with k by (unfold to_ticks; lia).
    rewrite (emplace_front k d rest Hlater).
    rewrite IH by (try reflexivity; exact Hk).
    cbn [next_id fired]. rewrite <- app_assoc. reflexivity.
Qed.

End Monopoly.

(** X7. An endless timer with period 0 (scheduled with delay 0 and a
    negative [repeat]) keeps the worker to itself.  Its restart puts the
    entry back under the same deadline, in front of every entry with a
    later deadline, so the worker finds it first again at each turn: however
    many turns the worker takes, under whatever clock readings, the only
    callback run is that of this timer, and the entries with later
    deadlines all stay in the multimap.  With the service running and the
    deadline reached, 3 n turns run the callback n times. *)
Theorem X7_endless_timer_without_period_starves_later_timers
    (s : State) (k : TimePoint) (d : TimerData) (rest : Store)
    (nows : list TimePoint) :
  worker s = AtLoopHead -> timers s = (k, d) :: rest ->
  repeat d < 0 -> period d = 0 ->
  Forall (fun e => k < fst e) rest ->
  (exists n, fired (run (map OWorker nows) s) =
             fired s ++ List.repeat (to_fired (k, d)) n) /\
  (forall e, In e rest -> In e (timers (run (map OWorker nows) s))) /\
  (running s = true ->
   forall T n, k <= T ->
     run (List.repeat (OWorker T) (3 * n)) s =
     mkState ((k, d) :: rest) true (next_id s) AtLoopHead
             (fired s ++ List.repeat (to_fired (k, d)) n)).
Proof.
  intros Ew Et Hrep Hper Hlater.
  assert (Hm : monopolised k d rest s) by (left; split; [left; exact Ew|exact Et]).
  destruct (monopolised_run k d rest Hrep Hper Hlater nows s Hm) as [Hm' Hf].
  split; [exact Hf|]. split.
  - intros e He. destruct Hm' as [[_ Ht]|[_ Ht]]; rewrite Ht;
      [right; exact He|exact He].
  - intros Hr T n Hk.
    apply (monopolised_turns k d rest Hrep Hper Hlater T n s Ew Hr Et Hk).
Qed.

Lemma X7_witness :
  fired_ids (run ([OSchedule 0 0 (mkClosure 0 1) (-1);
                   OSchedule 0 100 (mkClosure 1 2) 0] ++
                  List.repeat (OWorker 900000000) 12) init) = [1; 1; 1; 1].
Proof.
  assert (H := proj2 (proj2
    (X7_endless_timer_without_period_starves_later_timers
       (run [OSchedule 0 0 (mkClosure 0 1) (-1);
             OSchedule 0 100 (mkClosure 1 2) 0] init)
       0 (mkTimerData 1 (mkClosure 0 1) (-1) 0)
       [(100000000, mkTimerData 2 (mkClosure 1 2) 0 100)] []
       eq_refl eq_refl ltac:(simpl; lia) eq_refl
       ltac:(repeat constructor))) eq_refl 900000000 4%nat ltac:(lia)).
  rewrite run_app.
  change (List.repeat (OWorker 900000000) 12)
    with (List.repeat (OWorker 900000000) (3 * 4)).
  rewrite H. reflexivity.
Defined.

(** ** Draining the multimap *)

Section Drain.

Lemma emplace_by_deadline_then_id k v l :
  by_deadline_then_id l ->
  Forall (fun e => id (snd e) < id v) l ->
  by_deadline_then_id (emplace k v l).
Proof.
  unfold by_deadline_then_id.
  induction l as [|[k' v'] r IH]; simpl; intros Hs Hid.
  - constructor; constructor.
  - inversion Hs as [|? ? Hr Hall]; subst.
    inversion Hid as [|? ? Hv' Hidr]; subst. simpl in Hv'.
    rewrite Forall_forall in Hall.
    destruct (k <? k') eqn:E.
    + apply Z.ltb_lt in E. constructor; [exact Hs|].
      constructor; [left; simpl; lia|].
      apply Forall_forall. intros e He. specialize (Hall e He). simpl in *.
      left. lia.
    + apply Z.ltb_ge in E. constructor; [apply IH; assumption|].
      apply Forall_forall. intros e He. apply emplace_in in He.
      destruct He as [->|He]; [|apply Hall, He].
      simpl. lia.
Qed.

Lemma drain T l :
  forall s,
    timers s = l -> worker s = AtLoopHead -> running s = true ->
    Forall (fun e => repeat (snd e) = 0) l ->
    Forall (fun e => fst e <= T) l ->
    run (List.repeat (OWorker T) (3 * length l)) s =
    mkState [] true (next_id s) AtLoopHead (fired s ++ map to_fired l).
Proof.
  induction l as [|[k d] rest IH]; intros s Et Ew Hr Hrep HT.
  - simpl. rewrite app_nil_r. destruct s; simpl in *; subst; reflexivity.
  - inversion Hrep as [|? ? Hd Hrest]; subst.
    inversion HT as [|? ? Hk HTrest]; subst. simpl in Hd, Hk.
    replace (3 * length ((k, d) :: rest))%nat with (3 + 3 * length rest)%nat
      by (simpl; lia).
    rewrite repeat_app, run_app.
    change (List.repeat (OWorker T) 3) with [OWorker T; OWorker T; OWorker T].
    rewrite (single_shot_turn T s k d rest) by assumption.
    rewrite IH by (try reflexivity; assumption).
    cbn [next_id fired map]. rewrite <- app_assoc. reflexivity.
Qed.

Lemma schedules_only scheds :
  forall s,
    Forall single_shot_call scheds -> WF s -> fits s scheds ->
    by_deadline_then_id (timers s) ->
    Forall (fun e => repeat (snd e) = 0) (timers s) ->
    let s' := run scheds s in
    worker s' = worker s /\ running s' = running s /\ fired s' = fired s /\
    by_deadline_then_id (timers s') /\
    Forall (fun e => repeat (snd e) = 0) (timers s') /\
    Permutation (timers s') (entries_from (next_id s) scheds ++ timers s).
Proof.
  induction scheds as [|o ops IH]; intros s Hso Hwf Hf Hlex Hrep.
  - simpl. repeat split; try assumption. apply Permutation_refl.
  - inversion Hso as [|? ? Ho Hrest]; subst.
    destruct o as [now dl cb r|j| |now]; simpl in Ho; try contradiction. subst r.
    destruct (fits_cons _ _ _ Hwf Hf) as [Hb Hf']. specialize (Hb eq_refl).
    set (s1 := fst (step (OSchedule now dl cb 0) s)) in *.
    assert (Hwf1 : WF s1) by (apply WF_schedule; assumption).
    assert (Hn1 : next_id s1 = next_id s + 1).
    { unfold s1. apply next_id_schedule; [apply (wf_next _ Hwf)|exact Hb]. }
    assert (Hlex1 : by_deadline_then_id (timers s1)).
    { unfold s1. simpl. apply emplace_by_deadline_then_id; [exact Hlex|].
      pose proof (wf_store _ Hwf) as Hst. rewrite Forall_forall in Hst.
      apply Forall_forall. intros e He. simpl.
      destruct e as [k d]. apply in_ids_entry in He. specialize (Hst _ He).
      simpl. lia. }
    assert (Hrep1 : Forall (fun e => repeat (snd e) = 0) (timers s1)).
    { unfold s1. simpl.
      eapply Permutation_Forall; [apply Permutation_sym, emplace_perm|].
      constructor; [reflexivity|exact Hrep]. }
    destruct (IH s1 Hrest Hwf1 Hf' Hlex1 Hrep1) as (H1 & H2 & H3 & H4 & H5 & H6).
    change (run (OSchedule now dl cb 0 :: ops) s) with (run ops s1).
    cbv zeta. split; [exact H1|]. split; [exact H2|]. split; [exact H3|].
    split; [exact H4|]. split; [exact H5|].
    eapply Permutation_trans; [exact H6|].
    rewrite Hn1. cbn [entries_from].
    unfold s1. simpl timers.
    eapply Permutation_trans;
      [apply Permutation_app_head, emplace_perm|].
    apply Permutation_sym. simpl. apply Permutation_middle.
Qed.

Lemma entries_from_length i scheds :
  Forall single_shot_call scheds ->
  length (entries_from i scheds) = length scheds.
Proof.
  revert i. induction scheds as [|o ops IH]; intros i Hso; [reflexivity|].
  inversion Hso as [|? ? Ho Hrest]; subst.
  destruct o; simpl in Ho; try contradiction. simpl. rewrite IH; auto.
Qed.

End Drain.

(** X8. The service sorts.  After any sequence of [schedule] calls with
    [repeat] 0 on a fresh service, the multimap holds exactly the entries
    of these calls, ordered by deadline and, among equal deadlines, by id,
    that is, by the order of the calls.  If the worker then takes three
    turns per timer with the clock past every deadline, each callback is
    run exactly once, in the order of the multimap, and the multimap is
    empty. *)
Theorem X8_due_single_shot_timers_all_fire_in_order
    (scheds : list Op) (T : TimePoint) :
  Forall single_shot_call scheds ->
  fits init scheds ->
  Forall (fun e => fst e <= T) (entries_from 1 scheds) ->
  let s := run scheds init in
  let sf := run (scheds ++ List.repeat (OWorker T) (3 * length scheds)) init in
  Permutation (timers s) (entries_from 1 scheds) /\
  by_deadline_then_id (timers s) /\
  fired sf = map to_fired (timers s) /\
  Permutation (fired sf) (map to_fired (entries_from 1 scheds)) /\
  timers sf = [] /\ worker sf = AtLoopHead.
Proof.
  intros Hso Hf HT s sf.
  assert (Hlex0 : by_deadline_then_id (timers init)) by constructor.
  assert (Hrep0 : Forall (fun e => repeat (snd e) = 0) (timers init)) by constructor.
  destruct (schedules_only scheds init Hso WF_init Hf Hlex0 Hrep0)
    as (Hw & Hr & Hfi & Hlex & Hrep & Hperm).
  fold s in Hw, Hr, Hfi, Hlex, Hrep, Hperm.
  simpl in Hw, Hr, Hfi, Hperm. rewrite app_nil_r in Hperm.
  assert (Hlen : length (timers s) = length scheds).
  { rewrite (Permutation_length Hperm). apply entries_from_length, Hso. }
  assert (HT' : Forall (fun e => fst e <= T) (timers s)).
  { eapply Permutation_Forall; [apply Permutation_sym, Hperm|exact HT]. }
  assert (Esf : sf = mkState [] true (next_id s) AtLoopHead
                       (fired s ++ map to_fired (timers s))).
  { unfold sf. rewrite run_app. fold s. rewrite <- Hlen.
    apply (drain T (timers s) s eq_refl Hw Hr Hrep HT'). }
  rewrite Hfi in Esf. simpl in Esf.
  split; [exact Hperm|]. split; [exact Hlex|].
  split; [rewrite Esf; reflexivity|].
  split; [rewrite Esf; simpl; apply Permutation_map, Hperm|].
  split; rewrite Esf; reflexivity.
Qed.

Lemma X8_witness :
  fired_ids (run ([OSchedule 0 300 (mkClosure 0 1) 0;
                   OSchedule 0 100 (mkClosure 1 2) 0;
                   OSchedule 50000000 50 (mkClosure 2 3) 0] ++
                  List.repeat (OWorker 400000000) 9) init) = [2; 3; 1].
Proof.
  assert (H := proj1 (proj2 (proj2
    (X8_due_single_shot_timers_all_fire_in_order
       [OSchedule 0 300 (mkClosure 0 1) 0; OSchedule 0 100 (mkClosure 1 2) 0;
        OSchedule 50000000 50 (mkClosure 2 3) 0] 400000000
       ltac:(repeat constructor)
       ltac:(unfold fits, uint64_modulus; simpl; lia)
       ltac:(repeat constructor; simpl; lia))))).
  exact (f_equal (map f_id) H).
Defined.

(** ** The earlier revision *)

Section Revisions.

Lemma old_emplace k v l :
  map old_entry (emplace k v l) =
  V1.emplace k (V1.mkTimerData (id v) (callback v)) (map old_entry l).
Proof.
  induction l as [|[k' v'] r IH]; simpl; [reflexivity|].
  destruct (k <? k'); simpl; [reflexivity|]. rewrite IH. reflexivity.
Qed.

Lemma old_erase i l :
  V1.erase_id i (map old_entry l) =
  match erase_id i l with
  | Some l' => Some (map old_entry l')
  | None => None
  end.
Proof.
  induction l as [|[k d] r IH]; simpl; [reflexivity|].
  destruct (id d =? i); [reflexivity|].
  rewrite IH. destruct (erase_id i r); reflexivity.
Qed.

Lemma v1_run_app a b s : V1.run (a ++ b) s = V1.run b (V1.run a s).
Proof. revert s. induction a as [|o a IH]; simpl; intro s; [reflexivity|apply IH]. Qed.

Lemma v1_returns_app a b s :
  V1.returns (a ++ b) s = V1.returns a s ++ V1.returns b (V1.run a s).
Proof.
  revert s. induction a as [|o a IH]; simpl; intro s; [reflexivity|].
  rewrite IH. reflexivity.
Qed.

Lemma answers_app a b : answers (a ++ b) = answers a ++ answers b.
Proof.
  induction a as [|x a IH]; simpl; [reflexivity|].
  destruct x; simpl; rewrite IH; reflexivity.
Qed.

Lemma old_worker_step now s :
  plain s ->
  plain (worker_ now s) /\
  V1.run (match worker s with
          | Erased _ _ => []
          | _ => [V1.OWorker now]
          end) (old_state s) = old_state (worker_ now s).
Proof.
  intro Hp. pose proof Hp as [Hs Hw].
  unfold worker_. destruct (worker s) as [|k d|k d|] eqn:Ew.
  - cbn [V1.run V1.step fst]. unfold V1.worker_.
    cbn [old_state V1.worker V1.running V1.timers V1.next_id V1.fired].
    rewrite Ew. cbn [old_worker].
    destruct (running s) eqn:Er; cbn [negb].
    + destruct (timers s) as [|[k d] rest] eqn:Et; cbn [map old_entry fst snd].
      { split; [exact Hp|]. unfold old_state. rewrite Ew, Er, Et. reflexivity. }
      destruct (k <=? now).
      * split; [|reflexivity]. split; cbn [timers worker].
        -- inversion Hs; assumption.
        -- intros k' d' E. inversion E; subst. inversion Hs; assumption.
      * split; [exact Hp|]. unfold old_state. rewrite Ew, Er, Et. reflexivity.
    + split; [|unfold old_state, set_worker; cbn; rewrite Er; reflexivity].
      split; [exact Hs|discriminate].
  - pose proof (Hw k d eq_refl) as Hr. rewrite Hr. cbn [Z.eqb negb V1.run].
    split; [split; [exact Hs|discriminate]|].
    unfold old_state, set_worker. cbn. rewrite Ew. reflexivity.
  - cbn [V1.run V1.step fst]. unfold V1.worker_.
    cbn [old_state V1.worker V1.running V1.timers V1.next_id V1.fired].
    rewrite Ew. cbn [old_worker].
    split; [split; [exact Hs|discriminate]|].
    unfold old_state. cbn [timers running next_id worker fired old_worker].
    rewrite map_app. reflexivity.
  - cbn [V1.run V1.step fst]. unfold V1.worker_.
    cbn [old_state V1.worker]. rewrite Ew. cbn [old_worker].
    split; [exact Hp|]. unfold old_state. rewrite Ew. reflexivity.
Qed.

Lemma old_step o s :
  plain s -> default_repeat o ->
  plain (fst (step o s)) /\
  V1.run (old_ops [o] s) (old_state s) = old_state (fst (step o s)) /\
  answers (V1.returns (old_ops [o] s) (old_state s)) = answers [snd (step o s)].
Proof.
  intros Hp Ho. pose proof Hp as [Hs Hw].
  destruct o as [now dl cb rep|j| |now]; simpl in Ho.
  - subst rep. split; [|split].
    + split; simpl; [|exact Hw].
      eapply Permutation_Forall; [apply Permutation_sym, emplace_perm|].
      constructor; [reflexivity|exact Hs].
    + simpl. unfold old_state, V1.schedule. simpl. rewrite old_emplace. reflexivity.
    + reflexivity.
  - split; [|split].
    + unfold step, cancel. destruct (erase_id j (timers s)) as [l|] eqn:E; simpl;
        [|exact Hp].
      split; simpl; [|exact Hw].
      destruct (erase_id_some _ _ _ E) as (l1 & k & d & l2 & El & _ & _ & ->).
      rewrite El in Hs. rewrite Forall_app in *. destruct Hs as [H1 H2].
      split; [exact H1|]. inversion H2; assumption.
    + simpl. unfold V1.cancel, cancel, old_state. simpl. rewrite old_erase.
      destruct (erase_id j (timers s)); reflexivity.
    + simpl. unfold V1.cancel, cancel, old_state. simpl. rewrite old_erase.
      destruct (erase_id j (timers s)); reflexivity.
  - split; [exact Hp|]. split; reflexivity.
  - destruct (old_worker_step now s Hp) as [Hp' Hrun].
    split; [exact Hp'|]. cbn [old_ops step fst snd]. rewrite app_nil_r.
    split; [exact Hrun|].
    destruct (worker s); reflexivity.
Qed.

Lemma old_ops_cons o ops s :
  old_ops (o :: ops) s = old_ops [o] s ++ old_ops ops (fst (step o s)).
Proof. cbn [old_ops]. rewrite app_nil_r. reflexivity. Qed.

Lemma old_run ops s :
  plain s -> Forall default_repeat ops ->
  V1.run (old_ops ops s) (old_state s) = old_state (run ops s) /\
  answers (V1.returns (old_ops ops s) (old_state s)) = answers (returns ops s).
Proof.
  revert s. induction ops as [|o ops IH]; intros s Hp Ho; [split; reflexivity|].
  inversion Ho as [|? ? Ho1 Hor]; subst.
  destruct (old_step o s Hp Ho1) as (Hp' & Hrun & Hans).
  destruct (IH _ Hp' Hor) as [IHrun IHans].
  rewrite old_ops_cons, v1_run_app, v1_returns_app, answers_app, Hrun.
  split; [exact IHrun|].
  rewrite Hans, IHans. cbn [returns answers].
  destruct (snd (step o s)); reflexivity.
Qed.

End Revisions.

(** X9. With [repeat] left at its default 0 in every [schedule] call, the
    service does what its earlier revision did.  For every interleaving of
    such calls there is a run of the earlier revision, with the same calls
    in the same order (the worker turn between erase and call matching no
    step), that ends with the same multimap, flag, id counter and callback
    in hand, has run the same callbacks in the same order, and has returned
    the same ids and the same answers to [cancel]. *)
Theorem X9_default_repeat_behaves_as_earlier_revision (ops : list Op) :
  Forall default_repeat ops ->
  V1.run (old_ops ops init) V1.init = old_state (run ops init) /\
  V1.fired (V1.run (old_ops ops init) V1.init) =
    map f_call (fired (run ops init)) /\
  answers (V1.returns (old_ops ops init) V1.init) =
    answers (returns ops init).
Proof.
  intro Ho.
  assert (Hp : plain init) by (split; [constructor|discriminate]).
  destruct (old_run ops init Hp Ho) as [Hrun Hans].
  change (old_state init) with V1.init in Hrun, Hans.
  split; [exact Hrun|]. split; [rewrite Hrun; reflexivity|exact Hans].
Qed.

Lemma X9_witness :
  V1.fired (V1.run (old_ops ([OSchedule 0 300 (mkClosure 0 1) 0;
                              OSchedule 0 100 (mkClosure 1 2) 0; OCancel 1] ++
                             List.repeat (OWorker 400000000) 4) init) V1.init) =
  [mkClosure 1 2].
Proof.
  exact (proj1 (proj2 (X9_default_repeat_behaves_as_earlier_revision
           ([OSchedule 0 300 (mkClosure 0 1) 0;
             OSchedule 0 100 (mkClosure 1 2) 0; OCancel 1] ++
            List.repeat (OWorker 400000000) 4)
           ltac:(repeat constructor)))).
Defined.

Section EarlierRevision.

Lemma v1_emplace_stored k v l :
  Permutation (stored (V1.emplace k v l)) (V1.callback v :: stored l).
Proof.
  induction l as [|[k' v'] r IH]; simpl; [apply Permutation_refl|].
  destruct (k <? k'); simpl; [apply Permutation_refl|].
  eapply Permutation_trans; [apply perm_skip, IH | apply perm_swap].
Qed.

Lemma v1_erase_stored i l l' :
  V1.erase_id i l = Some l' ->
  exists cb, found i l = [cb] /\ Permutation (stored l) (cb :: stored l').
Proof.
  revert l'. induction l as [|[k d] r IH]; simpl; intros l' H; [discriminate|].
  destruct (V1.id d =? i).
  - inversion H; subst. exists (V1.callback d). split; [reflexivity|].
    apply Permutation_refl.
  - destruct (V1.erase_id i r) as [r'|]; [|discriminate].
    inversion H; subst. destruct (IH r' eq_refl) as (cb & Ef & Hp).
    exists cb. split; [exact Ef|]. simpl.
    eapply Permutation_trans; [apply perm_skip, Hp | apply perm_swap].
Qed.

Lemma v1_erase_none i l : V1.erase_id i l = None -> found i l = [].
Proof.
  induction l as [|[k d] r IH]; simpl; intro H; [reflexivity|].
  destruct (V1.id d =? i); [discriminate|].
  destruct (V1.erase_id i r); [discriminate|]. apply IH. reflexivity.
Qed.

Lemma scheduled_cons o ops :
  scheduled (o :: ops) = scheduled [o] ++ scheduled ops.
Proof. destruct o; reflexivity. Qed.

Lemma cancelled_cons o ops s :
  cancelled (o :: ops) s = cancelled [o] s ++ cancelled ops (fst (V1.step o s)).
Proof. simpl. rewrite app_nil_r. reflexivity. Qed.

(** One critical section moves callbacks between the four places and
    neither copies nor drops one. *)
Lemma v1_step_moves o s :
  Permutation (scheduled [o] ++ accounted s)
              (accounted (fst (V1.step o s)) ++ cancelled [o] s).
Proof.
  unfold accounted.
  destruct o as [now dl cb|j| |now]; cbn [scheduled cancelled app V1.step];
    rewrite ?app_nil_r.
  - cbn [V1.schedule fst V1.fired V1.worker V1.timers].
    apply Permutation_sym.
    eapply Permutation_trans;
      [apply Permutation_app_head, Permutation_app_head, v1_emplace_stored|].
    cbn [V1.callback].
    eapply Permutation_trans;
      [apply Permutation_app_head, Permutation_sym, Permutation_middle|].
    apply Permutation_sym, Permutation_middle.
  - unfold V1.cancel. destruct (V1.erase_id j (V1.timers s)) as [l|] eqn:E.
    + destruct (v1_erase_stored _ _ _ E) as (cb & Ef & Hp).
      rewrite Ef. cbn [fst V1.fired V1.worker V1.timers].
      rewrite <- !app_assoc.
      apply Permutation_app_head, Permutation_app_head.
      eapply Permutation_trans; [exact Hp|].
      apply (Permutation_cons_append (stored l) cb).
    + rewrite (v1_erase_none _ _ E), app_nil_r. apply Permutation_refl.
  - apply Permutation_refl.
  - unfold V1.worker_. destruct (V1.worker s) as [|cb|] eqn:Ew.
    + destruct (V1.running s); cbn [negb];
        [|cbn [V1.fired V1.worker V1.timers fst moved_out]; apply Permutation_refl].
      destruct (V1.timers s) as [|[k d] rest] eqn:Et;
        [cbn [fst]; rewrite Ew, Et; apply Permutation_refl|].
      destruct (k <=? now);
        [|cbn [fst]; rewrite Ew, Et; apply Permutation_refl].
      cbn [fst V1.fired V1.worker V1.timers moved_out stored map snd app].
      apply Permutation_refl.
    + cbn [fst V1.fired V1.worker V1.timers moved_out app].
      rewrite <- app_assoc. apply Permutation_refl.
    + cbn [fst]. rewrite Ew. apply Permutation_refl.
Qed.

Lemma v1_run_moves ops :
  forall s,
    Permutation (scheduled ops ++ accounted s)
                (accounted (V1.run ops s) ++ cancelled ops s).
Proof.
  induction ops as [|o ops IH]; intro s.
  - simpl. rewrite app_nil_r. apply Permutation_refl.
  - rewrite scheduled_cons, cancelled_cons. cbn [V1.run].
    eapply Permutation_trans;
      [rewrite <- app_assoc; apply Permutation_app_swap_app|].
    eapply Permutation_trans;
      [apply Permutation_app_head, v1_step_moves|].
    rewrite app_assoc.
    eapply Permutation_trans;
      [apply Permutation_app_tail, IH|].
    rewrite <- app_assoc.
    apply Permutation_app_head, Permutation_app_comm.
Qed.

Lemma v1_cancelled_count ops :
  forall s, length (cancelled ops s) = count_true (V1.returns ops s).
Proof.
  induction ops as [|o ops IH]; intro s; [reflexivity|].
  rewrite cancelled_cons, length_app, IH. cbn [V1.returns].
  destruct o as [now dl cb|j| |now]; cbn [cancelled app length V1.step];
    try reflexivity.
  unfold V1.cancel. destruct (V1.erase_id j (V1.timers s)) as [l|] eqn:E.
  - destruct (v1_erase_stored _ _ _ E) as (cb & Ef & _). rewrite Ef. reflexivity.
  - rewrite (v1_erase_none _ _ E). reflexivity.
Qed.

End EarlierRevision.

(** X10. The earlier revision loses no callback and runs none twice.
    After any interleaving of calls on a fresh service, the callbacks
    handed to [schedule] are, as a multiset, exactly the callbacks that
    have run, the one the worker has moved out and is about to call, those
    of the entries still in the multimap and those of the entries erased by
    [cancel]: each scheduled callback is in one of the four places, as many
    times as it was scheduled.  The entries erased by [cancel] are as many
    as the [cancel] calls that returned true.  When the scheduled callbacks
    are pairwise different, no callback is in two places or twice in one:
    none has run twice, none has run and is still stored, none has run
    after its entry was cancelled. *)
Theorem X10_earlier_revision_runs_each_callback_once (ops : list V1.Op) :
  Permutation (scheduled ops)
              (V1.fired (V1.run ops V1.init) ++
               moved_out (V1.worker (V1.run ops V1.init)) ++
               stored (V1.timers (V1.run ops V1.init)) ++
               cancelled ops V1.init) /\
  length (cancelled ops V1.init) = count_true (V1.returns ops V1.init) /\
  (NoDup (scheduled ops) ->
   NoDup (V1.fired (V1.run ops V1.init) ++
          moved_out (V1.worker (V1.run ops V1.init)) ++
          stored (V1.timers (V1.run ops V1.init)) ++
          cancelled ops V1.init)).
Proof.
  assert (H : Permutation (scheduled ops)
              (V1.fired (V1.run ops V1.init) ++
               moved_out (V1.worker (V1.run ops V1.init)) ++
               stored (V1.timers (V1.run ops V1.init)) ++
               cancelled ops V1.init)).
  { pose proof (v1_run_moves ops V1.init) as Hm.
    unfold accounted in Hm. cbn [V1.init V1.fired V1.worker V1.timers
      moved_out stored map app] in Hm.
    rewrite app_nil_r in Hm. rewrite <- !app_assoc in Hm. exact Hm. }
  split; [exact H|]. split; [apply v1_cancelled_count|].
  intro Hnd. exact (Permutation_NoDup H Hnd).
Qed.

Lemma X10_witness :
  NoDup (scheduled [V1.OSchedule 0 300 (mkClosure 0 1);
                    V1.OSchedule 0 100 (mkClosure 1 2);
                    V1.OSchedule 0 200 (mkClosure 2 3);
                    V1.OCancel 1; V1.OWorker 400000000;
                    V1.OWorker 400000000; V1.OWorker 400000000]) /\
  NoDup ([mkClosure 1 2] ++ [mkClosure 2 3] ++ [] ++ [mkClosure 0 1]).
Proof.
  assert (Hnd : NoDup (scheduled [V1.OSchedule 0 300 (mkClosure 0 1);
                    V1.OSchedule 0 100 (mkClosure 1 2);
                    V1.OSchedule 0 200 (mkClosure 2 3);
                    V1.OCancel 1; V1.OWorker 400000000;
                    V1.OWorker 400000000; V1.OWorker 400000000])).
  { cbn [scheduled].
    repeat (constructor; [cbn [In]; intuition discriminate|]). constructor. }
  split; [exact Hnd|].
  exact (proj2 (proj2 (X10_earlier_revision_runs_each_callback_once
           [V1.OSchedule 0 300 (mkClosure 0 1);
            V1.OSchedule 0 100 (mkClosure 1 2);
            V1.OSchedule 0 200 (mkClosure 2 3);
            V1.OCancel 1; V1.OWorker 400000000;
            V1.OWorker 400000000; V1.OWorker 400000000])) Hnd).
Defined.
